(** * lucide-studio: the contribution dialog

    A shallow embedding of [src/components/ContributionDialog.tsx] and of
    [src/components/ContributionDialog/FormStepNames.tsx]: the zod schemas
    of the two wizard steps, the string normalisation run by the name
    input, the two mutations with their callbacks, and the rendered wizard.

    ECMAScript strings are sequences of UTF-16 code units; [String.length],
    [split], [replaceAll], [trim] and non-unicode regular expressions all
    work on code units, so a string is a [list N] here. *)

From Stdlib Require Import List Arith NArith Bool String Ascii Lia.
Import ListNotations.

Set Implicit Arguments.
Local Open Scope N_scope.

(* ================================================================== *)
(** ** ECMAScript strings *)

Definition code_unit := N.
Definition jsstring := list code_unit.

(** A string literal of the source, all of them ASCII. *)
Definition js (s : string) : jsstring :=
  List.map N_of_ascii (list_ascii_of_string s).

Fixpoint jsstring_eqb (a b : jsstring) : bool :=
  match a, b with
  | [], [] => true
  | x :: a', y :: b' => (x =? y) && jsstring_eqb a' b'
  | _, _ => false
  end.

(** *** Character classes *)

Definition in_range (lo hi c : code_unit) : bool := (lo <=? c) && (c <=? hi).

(** [[a-z]] *)
Definition isLowerLetter (c : code_unit) : bool := in_range 97 122 c.
(** [[A-Z]] *)
Definition isUpperLetter (c : code_unit) : bool := in_range 65 90 c.
(** [[0-9]] *)
Definition isDigit (c : code_unit) : bool := in_range 48 57 c.

Definition DASH : code_unit := 45.
Definition SPACE : code_unit := 32.
Definition UNDERSCORE : code_unit := 95.
Definition NEWLINE : code_unit := 10.

(** [[a-z0-9-]] *)
Definition isNameChar (c : code_unit) : bool :=
  isLowerLetter c || isDigit c || (c =? DASH).

(** [\w], that is [[A-Za-z0-9_]] (no [u] and no [i] flag). *)
Definition isWord (c : code_unit) : bool :=
  isUpperLetter c || isLowerLetter c || isDigit c || (c =? UNDERSCORE).

(** [[^\w]] *)
Definition isNonWord (c : code_unit) : bool := negb (isWord c).

(** WhiteSpace and LineTerminator of ECMA-262, the code units that
    [String.prototype.trim] strips. *)
Definition isWhiteSpace (c : code_unit) : bool :=
  in_range 9 13 c || (c =? 32) || (c =? 160) || (c =? 5760)
  || in_range 8192 8202 c || (c =? 8232) || (c =? 8233) || (c =? 8239)
  || (c =? 8287) || (c =? 12288) || (c =? 65279).

(** *** String.prototype methods *)

(** [s.replaceAll(a, b)] for one-unit strings [a] and [b]. *)
Definition replaceAll (a b : code_unit) (s : jsstring) : jsstring :=
  List.map (fun c => if c =? a then b else c) s.

Fixpoint trimStart (s : jsstring) : jsstring :=
  match s with
  | [] => []
  | c :: r => if isWhiteSpace c then trimStart r else s
  end.

Fixpoint trimEnd (s : jsstring) : jsstring :=
  match s with
  | [] => []
  | c :: r =>
      match trimEnd r with
      | [] => if isWhiteSpace c then [] else [c]
      | r' => c :: r'
      end
  end.

Definition trim (s : jsstring) : jsstring := trimEnd (trimStart s).

(** [s.replace(/[C]+/g, rep)]: a global replace of every maximal run of
    units of the class [cls] by [rep]. [inRun] tells that the unit before
    the current one belonged to a run already replaced. *)
Fixpoint replaceRuns_from (cls : code_unit -> bool) (rep : jsstring)
    (inRun : bool) (s : jsstring) : jsstring :=
  match s with
  | [] => []
  | c :: r =>
      if cls c
      then if inRun then replaceRuns_from cls rep true r
           else rep ++ replaceRuns_from cls rep true r
      else c :: replaceRuns_from cls rep false r
  end.

Definition replaceRuns cls rep s := replaceRuns_from cls rep false s.

(** [s.split(sep)] for a one-unit separator: the result is never empty,
    the empty string gives one empty piece. *)
Fixpoint split (sep : code_unit) (s : jsstring) : list jsstring :=
  match s with
  | [] => [[]]
  | c :: r =>
      if c =? sep then [] :: split sep r
      else match split sep r with
           | [] => [[c]]
           | w :: ws => (c :: w) :: ws
           end
  end.

(** [arr.join(sep)] on an array of strings. *)
Fixpoint join (sep : jsstring) (l : list jsstring) : jsstring :=
  match l with
  | [] => []
  | [w] => w
  | w :: ws => w ++ sep ++ join sep ws
  end.

(* ================================================================== *)
(** ** Results of computations that may throw *)

Record Error := mkError { message : jsstring }.

Inductive result (A : Type) : Type :=
| Return (a : A)
| Throw (e : Error).
Arguments Return {A} a.
Arguments Throw {A} e.

Record URL := mkURL { href : jsstring }.

(** ** What the embedding takes from the JavaScript runtime

    [toLowerCase] follows the Unicode case tables, which are not part of
    the repository: the development uses two facts about it only, both
    consequences of ECMA-262 (every unit of [[A-Z]] is mapped to
    [[a-z]] and no character lowercases to one of them; an ASCII string
    without a unit of [[A-Z]] is left alone). [JSON.parse(s).login] and
    [new URL(s)] may throw, and what they return is the runtime's matter. *)
Class Runtime := {
  toLowerCase : jsstring -> jsstring;
  toLowerCase_no_upper :
    forall s, Forall (fun c => isUpperLetter c = false) (toLowerCase s);
  toLowerCase_ascii_lower :
    forall s, Forall (fun c => c < 128 /\ isUpperLetter c = false) s ->
              toLowerCase s = s;
  JSON_parse_login : jsstring -> result (option jsstring);
  new_URL : jsstring -> result URL;
  TypeError : Error
}.

(** A runtime to compute with: [toLowerCase] restricted to its action on
    ASCII, a [JSON.parse] that understands an object with the one key
    [login] only and a [URL] constructor that wants a scheme separator. *)
Module ReferenceRuntime.

Definition lower_unit (c : code_unit) : code_unit :=
  if isUpperLetter c then c + 32 else c.

Definition toLowerCase (s : jsstring) : jsstring := List.map lower_unit s.

Fixpoint strip_prefix (p s : jsstring) : option jsstring :=
  match p, s with
  | [], _ => Some s
  | x :: p', y :: s' => if x =? y then strip_prefix p' s' else None
  | _ :: _, [] => None
  end.

Definition syntaxError : Error := mkError (js "Unexpected end of JSON input").

Definition JSON_parse_login (s : jsstring) : result (option jsstring) :=
  match strip_prefix ([123; 34] ++ js "login" ++ [34; 58; 34]) s with
  | Some r =>
      match List.rev r with
      | 125 :: 34 :: l => Return (Some (List.rev l))
      | _ => Throw syntaxError
      end
  | None => if jsstring_eqb s (js "{}") then Return None else Throw syntaxError
  end.

Fixpoint has_scheme (s : jsstring) : bool :=
  match s with
  | 58 :: 47 :: 47 :: _ :: _ => true
  | c :: r => isLowerLetter c && has_scheme r
  | [] => false
  end.

Definition new_URL (s : jsstring) : result URL :=
  if has_scheme s then Return (mkURL s) else Throw (mkError (js "Invalid URL")).

End ReferenceRuntime.

(* ================================================================== *)
(** ** Regular expressions

    The patterns of the source are anchored at both ends ([^...$], no
    [m] flag), so [RegExp.prototype.test] is a match of the whole
    string. The matcher takes derivatives, one code unit at a time. *)

Inductive regex : Type :=
| Void
| Eps
| Cls (p : code_unit -> bool)
| Cat (r1 r2 : regex)
| Alt (r1 r2 : regex)
| Star (r : regex).

Fixpoint nullable (r : regex) : bool :=
  match r with
  | Void => false
  | Eps => true
  | Cls _ => false
  | Cat r1 r2 => nullable r1 && nullable r2
  | Alt r1 r2 => nullable r1 || nullable r2
  | Star _ => true
  end.

Fixpoint deriv (c : code_unit) (r : regex) : regex :=
  match r with
  | Void => Void
  | Eps => Void
  | Cls p => if p c then Eps else Void
  | Cat r1 r2 =>
      if nullable r1
      then Alt (Cat (deriv c r1) r2) (deriv c r2)
      else Cat (deriv c r1) r2
  | Alt r1 r2 => Alt (deriv c r1) (deriv c r2)
  | Star r1 => Cat (deriv c r1) (Star r1)
  end.

Fixpoint regex_test (r : regex) (s : jsstring) : bool :=
  match s with
  | [] => nullable r
  | c :: s' => regex_test (deriv c r) s'
  end.

(** The language of a pattern, to reason about [regex_test]. *)
Inductive lang : regex -> jsstring -> Prop :=
| lang_eps : lang Eps []
| lang_cls p c : p c = true -> lang (Cls p) [c]
| lang_cat r1 r2 s1 s2 : lang r1 s1 -> lang r2 s2 -> lang (Cat r1 r2) (s1 ++ s2)
| lang_alt_l r1 r2 s : lang r1 s -> lang (Alt r1 r2) s
| lang_alt_r r1 r2 s : lang r2 s -> lang (Alt r1 r2) s
| lang_star_nil r : lang (Star r) []
| lang_star_cons r s1 s2 : lang r s1 -> lang (Star r) s2 -> lang (Star r) (s1 ++ s2).

(** [/^[a-z][a-z0-9-]*$/] *)
Definition re_name_chars : regex :=
  Cat (Cls isLowerLetter) (Star (Cls isNameChar)).

(** [/^[a-z][a-z0-9-]*[a-z]$/] *)
Definition re_name_end : regex :=
  Cat (Cls isLowerLetter) (Cat (Star (Cls isNameChar)) (Cls isLowerLetter)).

(* ================================================================== *)
(** ** zod *)

Record ZodIssue := mkIssue { path : jsstring; issue_message : jsstring }.

Inductive SafeParse (A : Type) : Type :=
| Success (data : A)
| Failure (issues : list ZodIssue).
Arguments Success {A} data.
Arguments Failure {A} issues.

(** The checks of a [z.string()] the source chains: [.nonempty(m)] is
    [.min(1, m)]. *)
Inductive ZodStringCheck : Type :=
| zmin (n : nat) (msg : jsstring)
| zmax (n : nat) (msg : jsstring)
| zregex (r : regex) (msg : jsstring).

Definition nonempty (msg : jsstring) : ZodStringCheck := zmin 1 msg.

Definition check_passes (c : ZodStringCheck) (s : jsstring) : bool :=
  match c with
  | zmin n _ => Nat.leb n (List.length s)
  | zmax n _ => Nat.leb (List.length s) n
  | zregex r _ => regex_test r s
  end.

Definition check_message (c : ZodStringCheck) : jsstring :=
  match c with
  | zmin _ m | zmax _ m | zregex _ m => m
  end.

(** A [ZodString] runs every check and collects an issue for each one
    that fails, in the order they were chained. *)
Definition ZodString_issues (checks : list ZodStringCheck) (s : jsstring)
  : list jsstring :=
  List.flat_map
    (fun c => if check_passes c s then [] else [check_message c]) checks.

(** [z.string()...] on a field: [undefined] is an issue of its own; a
    [.transform] runs on a valid value only. *)
Definition ZodString_field {A} (key : jsstring) (checks : list ZodStringCheck)
    (transform : jsstring -> A) (v : option jsstring) : SafeParse A :=
  match v with
  | None => Failure [mkIssue key (js "Required")]
  | Some s =>
      match ZodString_issues checks s with
      | [] => Success (transform s)
      | msgs => Failure (List.map (mkIssue key) msgs)
      end
  end.

(** [schema.optional()]: [undefined] is valid and stays [undefined]. *)
Definition ZodOptional {A} (inner : option jsstring -> SafeParse A)
    (v : option jsstring) : SafeParse (option A) :=
  match v with
  | None => Success None
  | Some _ =>
      match inner v with
      | Success a => Success (Some a)
      | Failure i => Failure i
      end
  end.

Definition issues_of {A} (r : SafeParse A) : list ZodIssue :=
  match r with
  | Success _ => []
  | Failure i => i
  end.

(** [zodResolver]: of the issues of a schema the form keeps, for every
    path, the first one. *)
Fixpoint first_per_path_from (seen : list jsstring) (l : list ZodIssue)
  : list ZodIssue :=
  match l with
  | [] => []
  | i :: r =>
      if existsb (jsstring_eqb (path i)) seen
      then first_per_path_from seen r
      else i :: first_per_path_from (path i :: seen) r
  end.

Definition first_per_path (l : list ZodIssue) : list ZodIssue :=
  first_per_path_from [] l.

(** ** The name schema, the same in both files *)

Definition nameChecks : list ZodStringCheck :=
  [ nonempty (js "Name is required.");
    zmin 2 (js "Name must be at least 2 characters long.");
    zmax 50 (js "Name must be between 2 and 50 characters long.");
    zregex re_name_chars
      (js "Name must start with a letter and contain only letters, numbers and dashes.");
    zregex re_name_end (js "Name must not end with a number") ].

Section NameSchema.
Context {rt : Runtime}.

(** [value.toLowerCase().replaceAll("-", " ").trim().replaceAll(" ", "-")] *)
Definition nameTransform (value : jsstring) : jsstring :=
  replaceAll SPACE DASH (trim (replaceAll DASH SPACE (toLowerCase value))).

Definition nameSchema (v : option jsstring) : SafeParse jsstring :=
  ZodString_field (js "name") nameChecks nameTransform v.

(** The [onChange] of the name input. *)
Definition nameInput_onChange_value (target_value : jsstring) : jsstring :=
  replaceRuns isNonWord [DASH] (toLowerCase target_value).

(** The [onBlur] of the name input. *)
Definition nameInput_onBlur_value (target_value : jsstring) : jsstring :=
  replaceAll SPACE DASH
    (trim (replaceRuns isNonWord [SPACE] (toLowerCase target_value))).

End NameSchema.

(* ================================================================== *)
(** ** FormStepNames.tsx: the name step with its advanced options *)

Module FormStepNames.

Record Values := mkValues {
  v_name : option jsstring;
  v_branch : option jsstring
}.

Record FormStepNamesData := mkData {
  name : jsstring;
  branch : option jsstring
}.

Section Schema.
Context {rt : Runtime}.

(** [branch: z.string().optional()] *)
Definition branchSchema : option jsstring -> SafeParse (option jsstring) :=
  ZodOptional (ZodString_field (js "branch") [] (fun s => s)).

(** A [z.object] parses every key and gathers the issues of all. *)
Definition nameStepSchema (i : Values) : SafeParse FormStepNamesData :=
  match nameSchema (v_name i), branchSchema (v_branch i) with
  | Success n, Success b => Success (mkData n b)
  | rn, rb => Failure (issues_of rn ++ issues_of rb)
  end.

(** The [onBlur] of the icon name input: the value it hands to
    [setName] and to [field.onChange]. *)
Definition onBlur_value (target_value : jsstring) : jsstring :=
  replaceAll SPACE DASH
    (trim (replaceRuns isNonWord [SPACE] (toLowerCase target_value))).

End Schema.

End FormStepNames.

(* ================================================================== *)
(** ** ContributionDialog.tsx *)

Module ContributionDialog.

(** *** Schemas *)

Record NameStepData := mkNameStepData { name : jsstring }.

Record MetadataValues := mkMetadataValues {
  v_categories : option jsstring;
  v_tags : option jsstring;
  v_contributors : option jsstring
}.

Record MetadataStepData := mkMetadataStepData {
  categories : jsstring;
  tags : jsstring;
  contributors : jsstring
}.

Definition nameStepSchema {rt : Runtime} (v_name : option jsstring)
  : SafeParse NameStepData :=
  match nameSchema v_name with
  | Success n => Success (mkNameStepData n)
  | Failure i => Failure i
  end.

Definition metadataStepSchema (v : MetadataValues)
  : SafeParse MetadataStepData :=
  let field key msg := ZodString_field key [nonempty msg] (fun s => s) in
  match field (js "categories") (js "Categories are required.") (v_categories v),
        field (js "tags") (js "Tags are required.") (v_tags v),
        field (js "contributors") (js "Contributors are required.")
          (v_contributors v)
  with
  | Success c, Success t, Success k => Success (mkMetadataStepData c t k)
  | rc, rt, rk => Failure (issues_of rc ++ issues_of rt ++ issues_of rk)
  end.

(** *** The session, the network and the JSON that travels *)

Record User := mkUser { image : option jsstring }.
Record SessionData := mkSessionData { user : option User }.
Record SessionContext := mkSession { data : option SessionData }.

(** [session.data?.user] *)
Definition session_user (s : SessionContext) : option User :=
  match data s with
  | Some d => user d
  | None => None
  end.

(** [session.data?.user?.image || ""] *)
Definition session_image (s : SessionContext) : jsstring :=
  match session_user s with
  | Some u => match image u with Some i => i | None => [] end
  | None => []
  end.

(** A property of a response body that is read as a URL. *)
Inductive JsField : Type :=
| Undefined
| Null
| Str (s : jsstring).

(** [String(x)], as [new URL(x)] applies it to its argument. *)
Definition ToString (x : JsField) : jsstring :=
  match x with
  | Undefined => js "undefined"
  | Null => js "null"
  | Str s => s
  end.

(** [a ?? b] *)
Definition nullish_coalesce (a b : JsField) : JsField :=
  match a with
  | Undefined | Null => b
  | Str _ => a
  end.

(** What [res.json()] can resolve to, as far as the component reads
    it: [null], another primitive, the answer of the metadata lookup,
    or an object read for the two pull request URLs (an object with
    neither key has both [Undefined]). *)
Inductive Body : Type :=
| BodyNull
| BodyPrimitive (truthy : bool)
| BodyMetadata (categories tags contributors : list jsstring)
| BodyObject (pullRequestCreationUrl pullRequestExistingUrl : JsField).

Record Response := mkResponse {
  ok : bool;
  text : result jsstring;
  json : result Body
}.

(** The values of the object handed to [JSON.stringify]: strings and
    arrays of strings; the object keeps its keys in insertion order. *)
Inductive Json : Type :=
| JStr (s : jsstring)
| JArr (l : list jsstring).

Definition JsObject := list (jsstring * Json).

(** Writing a key of an object literal: a key already there keeps its
    place and takes the new value, a new key goes last. *)
Fixpoint obj_set (k : jsstring) (v : Json) (o : JsObject) : JsObject :=
  match o with
  | [] => [(k, v)]
  | (k', v') :: r =>
      if jsstring_eqb k k' then (k, v) :: r else (k', v') :: obj_set k v r
  end.

Record RequestInit := mkRequestInit {
  method : jsstring;
  body : JsObject
}.

(** The props of the component and the world around it. *)
Record Env := mkEnv {
  value : jsstring;
  session : SessionContext;
  network : jsstring -> option RequestInit -> result Response
}.

(** *** State: the URL query and the two forms *)

Record World := mkWorld {
  q_step : option jsstring;
  q_name : option jsstring;
  q_contributionDialog : option jsstring;
  nameForm_name : jsstring;
  nameForm_errors : list ZodIssue;
  metadataForm_values : MetadataValues;
  metadataForm_errors : list ZodIssue;
  metadataForm_serverError : option jsstring
}.

(** [useQueryState("step", { defaultValue: "name" })] *)
Definition step (w : World) : jsstring :=
  match q_step w with Some s => s | None => js "name" end.

(** [useQueryState("name", { defaultValue: "" })] *)
Definition query_name (w : World) : jsstring :=
  match q_name w with Some s => s | None => [] end.

(** [useQueryState("contributionDialog", { defaultValue: false,
    parse: (query) => query === "true" })] *)
Definition open (w : World) : bool :=
  match q_contributionDialog w with
  | Some query => jsstring_eqb query (js "true")
  | None => false
  end.

Definition with_step (v : jsstring) (w : World) : World :=
  mkWorld (Some v) (q_name w) (q_contributionDialog w) (nameForm_name w)
    (nameForm_errors w) (metadataForm_values w) (metadataForm_errors w)
    (metadataForm_serverError w).

Definition with_name (v : jsstring) (w : World) : World :=
  mkWorld (q_step w) (Some v) (q_contributionDialog w) (nameForm_name w)
    (nameForm_errors w) (metadataForm_values w) (metadataForm_errors w)
    (metadataForm_serverError w).

Definition with_open (v : jsstring) (w : World) : World :=
  mkWorld (q_step w) (q_name w) (Some v) (nameForm_name w)
    (nameForm_errors w) (metadataForm_values w) (metadataForm_errors w)
    (metadataForm_serverError w).

Definition with_nameForm (v : jsstring) (e : list ZodIssue) (w : World) : World :=
  mkWorld (q_step w) (q_name w) (q_contributionDialog w) v e
    (metadataForm_values w) (metadataForm_errors w)
    (metadataForm_serverError w).

Definition with_metadata (v : MetadataValues) (w : World) : World :=
  mkWorld (q_step w) (q_name w) (q_contributionDialog w) (nameForm_name w)
    (nameForm_errors w) v (metadataForm_errors w)
    (metadataForm_serverError w).

Definition with_serverError (m : jsstring) (w : World) : World :=
  mkWorld (q_step w) (q_name w) (q_contributionDialog w) (nameForm_name w)
    (nameForm_errors w) (metadataForm_values w) (metadataForm_errors w)
    (Some m).

(** What [handleSubmit] does to the errors of the metadata form before
    it calls anything: the issues of the resolver replace the errors,
    and [errors.root], so [root.serverError], is removed. *)
Definition with_metadata_submitted (e : list ZodIssue) (w : World) : World :=
  mkWorld (q_step w) (q_name w) (q_contributionDialog w) (nameForm_name w)
    (nameForm_errors w) (metadataForm_values w) e None.

(** *** Effects: what leaves the component, in the order it happens *)

Inductive Effect : Type :=
| SignIn (provider : jsstring)
| Fetch (url : jsstring) (init : option RequestInit)
| SetTimeout (ms : N)
| WindowOpen (url : URL) (target : jsstring)
| QueryWrite (key value : jsstring).

Definition is_Fetch (e : Effect) : bool :=
  match e with Fetch _ _ => true | _ => false end.

Definition is_WindowOpen (e : Effect) : bool :=
  match e with WindowOpen _ _ => true | _ => false end.

Definition is_QueryWrite (key : jsstring) (e : Effect) : bool :=
  match e with QueryWrite k _ => jsstring_eqb k key | _ => false end.

(** An asynchronous function of the component: it changes the state,
    emits effects and settles, fulfilled or rejected. *)
Definition M (A : Type) : Type := World -> World * list Effect * result A.

Definition ret {A} (a : A) : M A := fun w => (w, [], Return a).

Definition throw {A} (e : Error) : M A := fun w => (w, [], Throw e).

Definition bind {A B} (m : M A) (k : A -> M B) : M B :=
  fun w =>
    match m w with
    | (w1, l1, Return a) =>
        match k a w1 with
        | (w2, l2, r) => (w2, l1 ++ l2, r)
        end
    | (w1, l1, Throw e) => (w1, l1, Throw e)
    end.

Definition catch {A} (m : M A) (h : Error -> M A) : M A :=
  fun w =>
    match m w with
    | (w1, l1, Throw e) =>
        match h e w1 with
        | (w2, l2, r) => (w2, l1 ++ l2, r)
        end
    | settled => settled
    end.

Definition lift {A} (r : result A) : M A := fun w => (w, [], r).

Definition emit (e : Effect) : M unit := fun w => (w, [e], Return tt).

Definition modify (f : World -> World) : M unit := fun w => (f w, [], Return tt).

Definition get : M World := fun w => (w, [], Return w).


Local Notation "x <- m ;; k" := (bind m (fun x => k))
  (at level 61, m at next level, right associativity).
Local Notation "m ;;; k" := (bind m (fun _ => k))
  (at level 61, right associativity).

(** [signIn("github")] of next-auth. *)
Definition signIn (provider : jsstring) : M unit := emit (SignIn provider).

(** [fetch(url, init)]: the request leaves, the network answers. *)
Definition fetch (env : Env) (url : jsstring) (init : option RequestInit)
  : M Response :=
  emit (Fetch url init) ;;; lift (network env url init).

(** [await new Promise((resolve) => setTimeout(resolve, ms))] *)
Definition sleep (ms : N) : M unit := emit (SetTimeout ms).

Definition windowOpen (url : URL) (target : jsstring) : M unit :=
  emit (WindowOpen url target).

Definition setStep (v : jsstring) : M unit :=
  modify (with_step v) ;;; emit (QueryWrite (js "step") v).

Definition setName (v : jsstring) : M unit :=
  modify (with_name v) ;;; emit (QueryWrite (js "name") v).

(** The default serializer of [useQueryState] is [String]. *)
Definition setOpen (b : bool) : M unit :=
  let v := js (if b then "true" else "false") in
  modify (with_open v) ;;; emit (QueryWrite (js "contributionDialog") v).

(** [metadataStepForm.setValue(field, v)] *)
Definition setValue_categories (v : option jsstring) : M unit :=
  modify (fun w =>
    let m := metadataForm_values w in
    with_metadata (mkMetadataValues v (v_tags m) (v_contributors m)) w).

Definition setValue_tags (v : option jsstring) : M unit :=
  modify (fun w =>
    let m := metadataForm_values w in
    with_metadata (mkMetadataValues (v_categories m) v (v_contributors m)) w).

Definition setValue_contributors (v : option jsstring) : M unit :=
  modify (fun w =>
    let m := metadataForm_values w in
    with_metadata (mkMetadataValues (v_categories m) (v_tags m) v) w).

(** [!v] on a form value: [undefined] and the empty string are falsy. *)
Definition falsy (v : option jsstring) : bool :=
  match v with
  | None | Some [] => true
  | Some (_ :: _) => false
  end.

Definition option_jsstring_eqb (a b : option jsstring) : bool :=
  match a, b with
  | None, None => true
  | Some x, Some y => jsstring_eqb x y
  | _, _ => false
  end.

(** [arr.indexOf(val)], [None] for -1. *)
Fixpoint indexOf (arr : list (option jsstring)) (val : option jsstring)
  : option nat :=
  match arr with
  | [] => None
  | x :: r =>
      if option_jsstring_eqb x val then Some O
      else option_map S (indexOf r val)
  end.

Fixpoint filter_from {A} (f : A -> nat -> bool) (idx : nat) (l : list A)
  : list A :=
  match l with
  | [] => []
  | x :: r =>
      if f x idx then x :: filter_from f (S idx) r
      else filter_from f (S idx) r
  end.

(** [arr.filter((val, idx, arr) => val && arr.indexOf(val) === idx)] *)
Definition first_truthy_occurrences (arr : list (option jsstring))
  : list (option jsstring) :=
  filter_from
    (fun val idx =>
       negb (falsy val) &&
       match indexOf arr val with
       | Some i => Nat.eqb i idx
       | None => false
       end) O arr.

Definition join_array (sep : jsstring) (arr : list (option jsstring))
  : jsstring :=
  join sep (List.map (fun o => match o with Some s => s | None => [] end) arr).

Section Component.
Context {rt : Runtime}.
Variable env : Env.

(** [data.categories], [data.tags] and [data.contributors] as the
    callee of [.join] or the operand of a spread: reading them off
    anything but the lookup's answer throws. *)
Definition data_categories (d : Body) : result (list jsstring) :=
  match d with BodyMetadata c _ _ => Return c | _ => Throw TypeError end.

Definition data_tags (d : Body) : result (list jsstring) :=
  match d with BodyMetadata _ t _ => Return t | _ => Throw TypeError end.

Definition data_contributors (d : Body) : result (list jsstring) :=
  match d with BodyMetadata _ _ k => Return k | _ => Throw TypeError end.

(** [if (!data)] *)
Definition falsy_data (d : option Body) : bool :=
  match d with
  | None | Some BodyNull | Some (BodyPrimitive false) => true
  | Some _ => false
  end.

(** *** The mutation of the name step *)

Definition onNameNext_mutationFn (values : NameStepData)
  : M (option Body) :=
  match session_user (session env) with
  | None => signIn (js "github") ;;; ret None
  | Some _ =>
      res <- fetch env (js "/api/metadata/" ++ name values) None ;;
      d <- lift (json res) ;;
      ret (Some d)
  end.

Definition onNameNext_onSuccess (data : option Body) : M unit :=
  match data with
  | Some d =>
      if falsy_data data then ret tt
      else
        w <- get ;;
        let values := metadataForm_values w in
        (if falsy (v_categories values)
         then c <- lift (data_categories d) ;;
              setValue_categories (Some (join [NEWLINE] c))
         else ret tt) ;;;
        (if falsy (v_tags values)
         then t <- lift (data_tags d) ;;
              setValue_tags (Some (join [NEWLINE] t))
         else ret tt) ;;;
        (if falsy (v_contributors values)
         then k <- lift (data_contributors d) ;;
              login <- lift (JSON_parse_login (session_image (session env))) ;;
              setValue_contributors
                (Some (join_array [NEWLINE]
                   (first_truthy_occurrences (List.map Some k ++ [login]))))
         else ret tt) ;;;
        setStep (js "metadata")
  | None => ret tt
  end.

Definition onNameNext_onError (_ : Error) : M unit :=
  login <- lift (JSON_parse_login (session_image (session env))) ;;
  setValue_contributors login ;;;
  setStep (js "metadata").

(** *** The mutation of the submission *)

Record SubmitValues := mkSubmitValues {
  s_categories : jsstring;
  s_tags : jsstring;
  s_contributors : jsstring;
  s_name : jsstring
}.

(** [{ ...vars, name }] *)
Definition submitValues (vars : MetadataStepData) (name : jsstring)
  : SubmitValues :=
  mkSubmitValues (categories vars) (tags vars) (contributors vars) name.

(** The own keys of [values], in the order the schema and the call
    site created them. *)
Definition spread (values : SubmitValues) : JsObject :=
  [ (js "categories", JStr (s_categories values));
    (js "tags", JStr (s_tags values));
    (js "contributors", JStr (s_contributors values));
    (js "name", JStr (s_name values)) ].

(** [text.split("\n").map((val) => val.trim())] *)
Definition lines (text : jsstring) : list jsstring :=
  List.map trim (split NEWLINE text).

Definition json_lines (text : jsstring) : Json :=
  JArr (lines text).

(** The object handed to [JSON.stringify]. *)
Definition submit_body (values : SubmitValues) : JsObject :=
  obj_set (js "value") (JStr (value env))
    (obj_set (js "categories") (json_lines (s_categories values))
       (obj_set (js "tags") (json_lines (s_tags values))
          (obj_set (js "contributors") (json_lines (s_contributors values))
             (spread values)))).

(** The [.then] callback on the promise of [fetch]. *)
Definition check_ok (res : Response) : result Response :=
  if ok res then Return res
  else match text res with
       | Return t => Throw (mkError t)
       | Throw e => Throw e
       end.

Definition onSubmit_mutationFn (values : SubmitValues)
  : M (option Response) :=
  match session_user (session env) with
  | None => signIn (js "github") ;;; ret None
  | Some _ =>
      let init := Some (mkRequestInit (js "POST") (submit_body values)) in
      emit (Fetch (js "/api/submit") init) ;;;
      let fetchQuery :=
        match network env (js "/api/submit") init with
        | Return res => check_ok res
        | Throw e => Throw e
        end in
      sleep 1500 ;;;
      res <- lift fetchQuery ;;
      ret (Some res)
  end.

(** [const { pullRequestCreationUrl, pullRequestExistingUrl } = ...] *)
Definition destructure_urls (b : Body) : result (JsField * JsField) :=
  match b with
  | BodyNull => Throw TypeError
  | BodyObject c e => Return (c, e)
  | BodyPrimitive _ | BodyMetadata _ _ _ => Return (Undefined, Undefined)
  end.

Definition onSubmit_onSuccess (res : option Response) : M unit :=
  match res with
  | None => ret tt
  | Some res =>
      b <- lift (json res) ;;
      urls <- lift (destructure_urls b) ;;
      let '(pullRequestCreationUrl, pullRequestExistingUrl) := urls in
      url <- lift (new_URL (ToString
               (nullish_coalesce pullRequestExistingUrl
                  pullRequestCreationUrl))) ;;
      windowOpen url (js "_blank") ;;;
      sleep 2000 ;;;
      setOpen false
  end.

Definition serverError_message (error : Error) : jsstring :=
  match message error with
  | [] => js "An error occurred while submitting the form."
  | m => m
  end.

Definition onSubmit_onError (error : Error) : M unit :=
  modify (with_serverError (serverError_message error)).

(** *** [useMutation]: the callbacks around a mutation function

    The function runs; fulfilled, [onSuccess] gets the data; rejected
    (or when [onSuccess] itself throws), [onError] gets the error and
    the promise of [mutateAsync] rejects with it. *)
Definition mutateAsync {V D} (mutationFn : V -> M D)
    (onSuccess : D -> M unit) (onError : Error -> M unit) (v : V) : M D :=
  catch (d <- mutationFn v ;; onSuccess d ;;; ret d)
        (fun e => onError e ;;; throw e).

Definition onNameNext : NameStepData -> M (option Body) :=
  mutateAsync onNameNext_mutationFn onNameNext_onSuccess onNameNext_onError.

Definition onSubmit : SubmitValues -> M (option Response) :=
  mutateAsync onSubmit_mutationFn onSubmit_onSuccess onSubmit_onError.

(** *** What is rendered, and the handlers of what is rendered *)

Inductive Rendered : Type :=
| NameForm
| MetadataForm.

(** [step === "name" ? <Form {...nameStepForm}> : <Form {...metadataStepForm}>] *)
Definition render (w : World) : Rendered :=
  if jsstring_eqb (step w) (js "name") then NameForm else MetadataForm.

Inductive Event : Type :=
| NameInputChange (target_value : jsstring)
| NameInputBlur (target_value : jsstring)
| NameFormSubmit
| TagsChange (target_value : jsstring)
| CategoriesChange (target_value : jsstring)
| ContributorsChange (target_value : jsstring)
| MetadataFormSubmit
| BackClick
| DialogOpenChange (open : bool).

(** The form an event comes from; the dialog frame is always there. *)
Definition source_of (ev : Event) : option Rendered :=
  match ev with
  | NameInputChange _ | NameInputBlur _ | NameFormSubmit => Some NameForm
  | TagsChange _ | CategoriesChange _ | ContributorsChange _
  | MetadataFormSubmit | BackClick => Some MetadataForm
  | DialogOpenChange _ => None
  end.

Definition Rendered_eqb (a b : Rendered) : bool :=
  match a, b with
  | NameForm, NameForm | MetadataForm, MetadataForm => true
  | _, _ => false
  end.

Definition enabled (w : World) (ev : Event) : bool :=
  match source_of ev with
  | Some f => Rendered_eqb f (render w)
  | None => true
  end.

(** [field.onChange(v)] of the name form, with the [watch]
    subscription of the effect hook behind it. *)
Definition nameField_onChange (v : jsstring) : M unit :=
  modify (fun w => with_nameForm v (nameForm_errors w) w) ;;;
  match v with
  | [] => ret tt
  | _ :: _ => setName v
  end.

(** The handlers. [handleSubmit] runs the resolver on the values of the
    form; its issues replace the errors of the form, the first one for
    every path, and the root error of an earlier submission goes. *)
Definition handle (ev : Event) : M unit :=
  match ev with
  | NameInputChange v => nameField_onChange (nameInput_onChange_value v)
  | NameInputBlur v => nameField_onChange (nameInput_onBlur_value v)
  | NameFormSubmit =>
      w <- get ;;
      match nameStepSchema (Some (nameForm_name w)) with
      | Success vars =>
          modify (with_nameForm (nameForm_name w) []) ;;;
          onNameNext vars ;;; ret tt
      | Failure i =>
          modify (with_nameForm (nameForm_name w) (first_per_path i))
      end
  | TagsChange v => setValue_tags (Some v)
  | CategoriesChange v => setValue_categories (Some v)
  | ContributorsChange v => setValue_contributors (Some v)
  | MetadataFormSubmit =>
      w <- get ;;
      match metadataStepSchema (metadataForm_values w) with
      | Success vars =>
          modify (with_metadata_submitted []) ;;;
          onSubmit (submitValues vars (query_name w)) ;;; ret tt
      | Failure i => modify (with_metadata_submitted (first_per_path i))
      end
  | BackClick => setStep (js "name")
  | DialogOpenChange b => setOpen b
  end.

(** One turn of the component: the handler of the event runs until its
    mutation has settled, and an event of a form that is not on screen
    cannot happen. The buttons are disabled while a mutation is pending,
    the inputs are not: a turn is a run of the handler during which
    nothing is typed. *)
Definition dispatch (ev : Event) (w : World) : World * list Effect :=
  if enabled w ev then fst (handle ev w) else (w, []).

End Component.

End ContributionDialog.

(* ================================================================== *)
(** ** The vocabulary of the specification *)

Definition starts_with_lowercase (s : jsstring) : Prop :=
  exists c r, s = c :: r /\ isLowerLetter c = true.

Definition ends_with_lowercase (s : jsstring) : Prop :=
  exists r c, s = r ++ [c] /\ isLowerLetter c = true.

Definition only_name_chars (s : jsstring) : Prop :=
  Forall (fun c => isNameChar c = true) s.

(** [[a-z0-9_]]: the units of [\w] a lowercased string can hold. *)
Definition isWordLower (c : code_unit) : bool :=
  isLowerLetter c || isDigit c || (c =? UNDERSCORE).

(** Lowercase letters, digits, underscores and dashes. *)
Definition isSlugChar (c : code_unit) : bool :=
  isWordLower c || (c =? DASH).

(** Words of [[a-z0-9_]] with single separators between them;
    [afterSep] forbids a separator in first place. *)
Fixpoint separated (sep : code_unit) (afterSep : bool) (t : jsstring) : bool :=
  match t with
  | [] => true
  | c :: r =>
      if c =? sep then negb afterSep && separated sep true r
      else isWordLower c && separated sep false r
  end.

(** The last unit of [t] is [sep]. *)
Fixpoint last_is (sep : code_unit) (t : jsstring) : bool :=
  match t with
  | [] => false
  | [c] => c =? sep
  | _ :: r => last_is sep r
  end.

Import ContributionDialog.

(** The three parts of a settled computation. *)
Definition world_of {A} (x : World * list Effect * result A) : World :=
  fst (fst x).

Definition effects_of {A} (x : World * list Effect * result A) : list Effect :=
  snd (fst x).

Definition result_of {A} (x : World * list Effect * result A) : result A :=
  snd x.

(** The error a submission is rejected with, if any: the one [fetch]
    rejected with, or the one made of (or met while reading) the text
    of a response that is not ok. *)
Definition submit_rejection (answer : result Response) : option Error :=
  match answer with
  | Throw e => Some e
  | Return res =>
      if ok res then None
      else Some (match text res with
                 | Return t => mkError t
                 | Throw e => e
                 end)
  end.

(** [pieces] is [text] cut at its newlines. *)
Definition split_on_newlines (text : jsstring) (pieces : list jsstring) : Prop :=
  pieces <> []
  /\ join [NEWLINE] pieces = text
  /\ Forall (fun p => ~ In NEWLINE p) pieces.

(** [entry] is [piece] without the white space at its two ends. *)
Definition trimmed_of (piece entry : jsstring) : Prop :=
  (exists l r, piece = l ++ entry ++ r
               /\ Forall (fun c => isWhiteSpace c = true) l
               /\ Forall (fun c => isWhiteSpace c = true) r)
  /\ (forall c t, entry = c :: t -> isWhiteSpace c = false)
  /\ (forall t c, entry = t ++ [c] -> isWhiteSpace c = false).

Definition split_and_trimmed (text : jsstring) (entries : list jsstring) : Prop :=
  exists pieces, split_on_newlines text pieces
                 /\ Forall2 trimmed_of pieces entries.

(** A computation that leaves the [step] of the query alone, or writes
    one of the [allowed] values to it. *)
Definition step_in (allowed : list jsstring) {A} (m : M A) : Prop :=
  forall w,
    q_step (world_of (m w)) = q_step w
    \/ exists v, In v allowed /\ q_step (world_of (m w)) = Some v.

(* ================================================================== *)
(** ** Sample inputs *)

Module Sample.

Definition world : World :=
  mkWorld None None None [] [] (mkMetadataValues None None None) [] None.

(** The dialog on its second step, with the three fields filled in. *)
Definition world_metadata : World :=
  mkWorld (Some (js "metadata")) (Some (js "arrow-up")) (Some (js "true"))
    (js "arrow-up") []
    (mkMetadataValues (Some (js "arrows")) (Some (js "up")) (Some (js "octocat")))
    [] None.

(** The image of the session carries the login as JSON. *)
Definition user : User :=
  mkUser (Some ([123; 34] ++ js "login" ++ [34; 58; 34] ++ js "octocat" ++ [34; 125])).

Definition signed_in : SessionContext := mkSession (Some (mkSessionData (Some user))).

Definition signed_out : SessionContext := mkSession None.

Definition pull_request : jsstring :=
  js "https://github.com/lucide-icons/lucide/compare/main...studio/arrow-up".

(** A backend that knows one icon and opens a pull request. *)
Definition backend (url : jsstring) (init : option RequestInit) : result Response :=
  match init with
  | None =>
      Return (mkResponse true (Return [])
                (Return (BodyMetadata [js "arrows"] [js "up"; js "north"]
                           [js "octocat"; js "ericfennis"])))
  | Some _ =>
      Return (mkResponse true (Return [])
                (Return (BodyObject (Str pull_request) Undefined)))
  end.

(** A backend that turns the submission down. *)
Definition backend_down (url : jsstring) (init : option RequestInit)
  : result Response :=
  Return (mkResponse false (Return (js "Bad credentials")) (Throw (mkError []))).

Definition values : SubmitValues :=
  mkSubmitValues (js "arrows") ([32] ++ js "up" ++ [10; 9] ++ js "north" ++ [13])
    (js "octocat") (js "arrow-up").

End Sample.

(* ================================================================== *)
(** ** More vocabulary: the messages, the lines and the frame *)

(** The message of the first issue of the name schema, read off the
    string: its length, its first unit, its units, its last unit. *)
Definition first_name_message (s : jsstring) : option jsstring :=
  match s with
  | [] => Some (js "Name is required.")
  | [_] => Some (js "Name must be at least 2 characters long.")
  | c :: r =>
      if Nat.ltb 50 (List.length s)
      then Some (js "Name must be between 2 and 50 characters long.")
      else if negb (isLowerLetter c && forallb isNameChar r)
      then Some (js "Name must start with a letter and contain only letters, numbers and dashes.")
      else if negb (isLowerLetter (List.last r c))
      then Some (js "Name must not end with a number")
      else None
  end.

(** The issue of one field of the metadata form. *)
Definition metadata_field_issue (key msg : jsstring) (v : option jsstring)
  : list ZodIssue :=
  match v with
  | None => [mkIssue key (js "Required")]
  | Some [] => [mkIssue key msg]
  | Some (_ :: _) => []
  end.

(** No white space at either end. *)
Definition no_outer_space (p : jsstring) : Prop :=
  (forall c t, p = c :: t -> isWhiteSpace c = false)
  /\ (forall t c, p = t ++ [c] -> isWhiteSpace c = false).

(** The error the lookup of the name step is rejected with, if any. *)
Definition lookup_rejection (answer : result Response) : option Error :=
  match answer with
  | Throw e => Some e
  | Return res =>
      match json res with
      | Throw e => Some e
      | Return _ => None
      end
  end.

(** The lookup resolved with a body that [if (!data)] takes for
    nothing: [null], [false], [0] or the empty string. *)
Definition lookup_answers_nothing (answer : result Response) : bool :=
  match answer with
  | Return res =>
      match json res with
      | Return b => falsy_data (Some b)
      | Throw _ => false
      end
  | Throw _ => false
  end.

(** A computation that leaves the observation [f] of the state alone. *)
Definition preserves {X} (f : World -> X) {A} (m : M A) : Prop :=
  forall w, f (world_of (m w)) = f w.

(** A computation all of whose effects satisfy [P]. *)
Definition emits (P : Effect -> Prop) {A} (m : M A) : Prop :=
  forall w, Forall P (effects_of (m w)).

(** What the component may do to the world outside. *)
Definition allowed_effect (e : Effect) : Prop :=
  match e with
  | SignIn provider => provider = js "github"
  | Fetch url None => exists n, url = js "/api/metadata/" ++ n
  | Fetch url (Some init) => url = js "/api/submit" /\ method init = js "POST"
  | SetTimeout ms => ms = 1500 \/ ms = 2000
  | WindowOpen _ target => target = js "_blank"
  | QueryWrite key v =>
      (key = js "step" /\ (v = js "metadata" \/ v = js "name"))
      \/ (key = js "name" /\ v <> [])
      \/ (key = js "contributionDialog" /\ (v = js "true" \/ v = js "false"))
  end.

(** The name of the query is the value of the name input, unless the
    input is empty. *)
Definition name_synced (w : World) : Prop :=
  nameForm_name w = [] \/ q_name w = Some (nameForm_name w).

(** A name the schema accepts, in the words of its messages. *)
Definition valid_name (s : jsstring) : Prop :=
  (2 <= List.length s <= 50)%nat /\ starts_with_lowercase s
  /\ ends_with_lowercase s /\ only_name_chars s.

(** More sample inputs. *)
Module Offline.

(** No network: every request is rejected. *)
Definition backend (url : jsstring) (init : option RequestInit) : result Response :=
  Throw (mkError (js "Failed to fetch")).

(** The metadata form with contributors typed in by hand. *)
Definition world : World :=
  mkWorld None (Some (js "arrow-up")) (Some (js "true")) (js "arrow-up") []
    (mkMetadataValues None (Some (js "up")) (Some (js "somebody"))) [] None.

End Offline.

(* ================================================================== *)
(** ** FormStepNames.tsx: the component *)

Module FormStepNamesComponent.

(** [defaultValues: Partial<FormStepNamesData> & Record<string, any>]:
    a key may be absent, or present with a value that may be
    [undefined]. *)
Record DefaultValues := mkDefaultValues {
  dv_name : option (option jsstring);
  dv_branch : option (option jsstring)
}.

Record Props := mkProps {
  isPending : bool;
  defaultValues : DefaultValues
}.

(** The two parameters of the query, the flag of the advanced options
    and the values of the form. *)
Record State := mkState {
  q_name : option jsstring;
  q_branch : option jsstring;
  showAdvancedOptions : bool;
  form_name : option jsstring;
  form_branch : option jsstring;
  form_errors : list ZodIssue
}.

(** [useQueryState("name", { defaultValue: "" })] *)
Definition name (s : State) : jsstring :=
  match q_name s with Some v => v | None => [] end.

(** [useQueryState("branch", { defaultValue: "" })] *)
Definition branch (s : State) : jsstring :=
  match q_branch s with Some v => v | None => [] end.

(** What leaves the component: the two setters of the query and the
    [onSubmit] of the props. *)
Inductive Call : Type :=
| SetName (v : jsstring)
| SetBranch (v : jsstring)
| OnSubmit (data : FormStepNames.FormStepNamesData).

(** The first render: [useState(branch ? true : false)] and
    [defaultValues: { name, branch, ...defaultValues }]. *)
Definition first_render (qn qb : option jsstring) (p : Props) : State :=
  let n := match qn with Some v => v | None => [] end in
  let b := match qb with Some v => v | None => [] end in
  mkState qn qb
    (match b with [] => false | _ :: _ => true end)
    (match dv_name (defaultValues p) with Some v => v | None => Some n end)
    (match dv_branch (defaultValues p) with Some v => v | None => Some b end)
    [].

(** [useEffect(() => { nameStepForm.setValue("name", name) }, [name, nameStepForm])] *)
Definition effect (s : State) : State :=
  mkState (q_name s) (q_branch s) (showAdvancedOptions s) (Some (name s))
    (form_branch s) (form_errors s).

(** The effect runs after the first render. *)
Definition mount (qn qb : option jsstring) (p : Props) : State :=
  effect (first_render qn qb p).

Inductive Event : Type :=
| NameChange (target_value : jsstring)
| NameBlur (target_value : jsstring)
| BranchChange (target_value : jsstring)
| ShowAdvancedOptions
| HideAdvancedOptions
| Submit.

(** The branch input and the legend exist while the advanced options
    are shown, the button that shows them while they are hidden; the
    submit button is disabled while pending. *)
Definition enabled (p : Props) (s : State) (ev : Event) : bool :=
  match ev with
  | NameChange _ | NameBlur _ => true
  | BranchChange _ | HideAdvancedOptions => showAdvancedOptions s
  | ShowAdvancedOptions => negb (showAdvancedOptions s)
  | Submit => negb (isPending p)
  end.

Section Component.
Context {rt : Runtime}.
Variable p : Props.

(** [setName(value); field.onChange(value)] *)
Definition name_input (value : jsstring) (s : State) : State * list Call :=
  (mkState (Some value) (q_branch s) (showAdvancedOptions s) (Some value)
     (form_branch s) (form_errors s),
   [SetName value]).

Definition handle (ev : Event) (s : State) : State * list Call :=
  match ev with
  | NameChange v => name_input (nameInput_onChange_value v) s
  | NameBlur v => name_input (FormStepNames.onBlur_value v) s
  | BranchChange v =>
      (mkState (q_name s) (Some v) (showAdvancedOptions s) (form_name s)
         (Some v) (form_errors s),
       [SetBranch v])
  | ShowAdvancedOptions =>
      (mkState (q_name s) (q_branch s) true (form_name s) (form_branch s)
         (form_errors s), [])
  | HideAdvancedOptions =>
      (mkState (q_name s) (q_branch s) false (form_name s) (form_branch s)
         (form_errors s), [])
  | Submit =>
      match FormStepNames.nameStepSchema
              (FormStepNames.mkValues (form_name s) (form_branch s)) with
      | Success vars =>
          (mkState (q_name s) (q_branch s) (showAdvancedOptions s)
             (form_name s) (form_branch s) [], [OnSubmit vars])
      | Failure i =>
          (mkState (q_name s) (q_branch s) (showAdvancedOptions s)
             (form_name s) (form_branch s) i, [])
      end
  end.

(** One turn: the handler, then the effect if [name] has changed. *)
Definition turn (ev : Event) (s : State) : State * list Call :=
  if enabled p s ev
  then let '(s', calls) := handle ev s in
       (if jsstring_eqb (name s') (name s) then s' else effect s', calls)
  else (s, []).

End Component.

(** The form holds the name of the query. *)
Definition synced (s : State) : Prop := form_name s = Some (name s).

End FormStepNamesComponent.

(* ================================================================== *)
(** * Properties *)

(** ** Strings *)

Lemma jsstring_eqb_eq (a b : jsstring) : jsstring_eqb a b = true <-> a = b.
Proof.
  revert b; induction a as [|x a IH]; intros [|y b]; simpl;
    try (split; [discriminate | congruence]); try tauto.
  rewrite andb_true_iff, N.eqb_eq, IH. split.
  - intros [-> ->]; reflexivity.
  - intros E; injection E; auto.
Qed.

Lemma jsstring_eqb_refl (a : jsstring) : jsstring_eqb a a = true.
Proof. apply jsstring_eqb_eq; reflexivity. Qed.

Lemma jsstring_eqb_neq (a b : jsstring) : jsstring_eqb a b = false <-> a <> b.
Proof.
  rewrite <- jsstring_eqb_eq. destruct (jsstring_eqb a b); split; congruence.
Qed.

(** ** The matcher decides the language of a pattern *)

Lemma lang_void_inv s : lang Void s -> False.
Proof. inversion 1. Qed.

Lemma lang_eps_inv s : lang Eps s -> s = [].
Proof. inversion 1; reflexivity. Qed.

Lemma lang_cls_inv p s : lang (Cls p) s -> exists c, s = [c] /\ p c = true.
Proof. inversion 1; subst; eauto. Qed.

Lemma lang_cat_inv r1 r2 s :
  lang (Cat r1 r2) s -> exists s1 s2, s = s1 ++ s2 /\ lang r1 s1 /\ lang r2 s2.
Proof. inversion 1; subst; eauto. Qed.

Lemma lang_alt_inv r1 r2 s : lang (Alt r1 r2) s -> lang r1 s \/ lang r2 s.
Proof. inversion 1; subst; auto. Qed.

Lemma lang_cat_intro r1 r2 s s1 s2 :
  s = s1 ++ s2 -> lang r1 s1 -> lang r2 s2 -> lang (Cat r1 r2) s.
Proof. intros ->. apply lang_cat. Qed.

Lemma nullable_lang (r : regex) : nullable r = true <-> lang r [].
Proof.
  induction r; simpl.
  - split; [discriminate | intros H; destruct (lang_void_inv H)].
  - split; [constructor | reflexivity].
  - split; [discriminate|].
    intros H. apply lang_cls_inv in H as (c & E & _). discriminate.
  - rewrite andb_true_iff, IHr1, IHr2. split.
    + intros [H1 H2]. now apply (@lang_cat_intro r1 r2 _ [] []).
    + intros H. apply lang_cat_inv in H as (s1 & s2 & E & H1 & H2).
      symmetry in E. apply app_eq_nil in E as [-> ->]. auto.
  - rewrite orb_true_iff, IHr1, IHr2. split.
    + intros [H|H]; [now apply lang_alt_l | now apply lang_alt_r].
    + apply lang_alt_inv.
  - split; [constructor | reflexivity].
Qed.

Lemma lang_cat_cons r1 r2 c s :
  lang (Cat r1 r2) (c :: s) <->
  (exists s1 s2, s = s1 ++ s2 /\ lang r1 (c :: s1) /\ lang r2 s2)
  \/ (lang r1 [] /\ lang r2 (c :: s)).
Proof.
  split.
  - intros H. apply lang_cat_inv in H as (s1 & s2 & E & H1 & H2).
    destruct s1 as [|x s1]; simpl in E.
    + subst s2. right; auto.
    + injection E as -> ->. left; eauto.
  - intros [(s1 & s2 & -> & H1 & H2) | [H1 H2]].
    + now apply (@lang_cat_intro r1 r2 _ (c :: s1) s2).
    + now apply (@lang_cat_intro r1 r2 _ [] (c :: s)).
Qed.

Lemma lang_star_cons_inv r u :
  lang (Star r) u ->
  forall c s, u = c :: s ->
  exists s1 s2, s = s1 ++ s2 /\ lang r (c :: s1) /\ lang (Star r) s2.
Proof.
  intros H. remember (Star r) as q eqn:Eq.
  induction H as [| | | | | |r' s1 s2 H1 _ H2 IH2]; try discriminate.
  injection Eq as ->. intros c s E.
  destruct s1 as [|x s1]; simpl in E.
  - apply IH2; auto.
  - injection E as -> <-. eauto.
Qed.

Lemma deriv_lang (r : regex) : forall c s, lang (deriv c r) s <-> lang r (c :: s).
Proof.
  induction r; intros c s; simpl.
  - split; intros H; destruct (lang_void_inv H).
  - split; intros H; [destruct (lang_void_inv H)|].
    apply lang_eps_inv in H; discriminate.
  - destruct (p c) eqn:E; split; intros H.
    + apply lang_eps_inv in H as ->. now constructor.
    + apply lang_cls_inv in H as (x & Ex & _). injection Ex as _ ->. constructor.
    + destruct (lang_void_inv H).
    + apply lang_cls_inv in H as (x & Ex & Hx). injection Ex as <- _. congruence.
  - rewrite lang_cat_cons. destruct (nullable r1) eqn:N.
    + split.
      * intros H. apply lang_alt_inv in H as [H|H].
        -- apply lang_cat_inv in H as (s1 & s2 & -> & H1 & H2).
           left. exists s1, s2. rewrite <- IHr1. auto.
        -- right. rewrite <- IHr2. split; auto. now apply nullable_lang.
      * intros [(s1 & s2 & -> & H1 & H2) | [H1 H2]].
        -- apply lang_alt_l. constructor; auto. now apply IHr1.
        -- apply lang_alt_r. now apply IHr2.
    + split.
      * intros H. apply lang_cat_inv in H as (s1 & s2 & -> & H1 & H2).
        left. exists s1, s2. rewrite <- IHr1. auto.
      * intros [(s1 & s2 & -> & H1 & H2) | [H1 H2]].
        -- constructor; auto. now apply IHr1.
        -- apply nullable_lang in H1. congruence.
  - split; intros H; apply lang_alt_inv in H as [H|H].
    + apply lang_alt_l. now apply IHr1.
    + apply lang_alt_r. now apply IHr2.
    + apply lang_alt_l. now apply IHr1.
    + apply lang_alt_r. now apply IHr2.
  - split; intros H.
    + apply lang_cat_inv in H as (s1 & s2 & -> & H1 & H2).
      change (c :: s1 ++ s2) with ((c :: s1) ++ s2).
      constructor; auto. now apply IHr.
    + destruct (lang_star_cons_inv H eq_refl) as (s1 & s2 & -> & H1 & H2).
      constructor; auto. now apply IHr.
Qed.

Lemma regex_test_lang (s : jsstring) : forall r, regex_test r s = true <-> lang r s.
Proof.
  induction s as [|c s IH]; intros r; simpl.
  - apply nullable_lang.
  - rewrite IH. apply deriv_lang.
Qed.

Lemma lang_star_cls (p : code_unit -> bool) (s : jsstring) :
  lang (Star (Cls p)) s <-> forallb p s = true.
Proof.
  split.
  - intros H. remember (Star (Cls p)) as q eqn:Eq.
    induction H as [| | | | | |r' s1 s2 H1 _ H2 IH2]; try discriminate; auto.
    injection Eq as ->. apply lang_cls_inv in H1 as (c & -> & Hc). simpl.
    rewrite Hc. now apply IH2.
  - induction s as [|c s IH]; simpl; [constructor|].
    rewrite andb_true_iff. intros [Hc Hs].
    change (c :: s) with ([c] ++ s). constructor; auto. now constructor.
Qed.

(** What the two patterns of the name schema accept. *)
Lemma re_name_chars_spec (s : jsstring) :
  regex_test re_name_chars s = true <->
  exists c r, s = c :: r /\ isLowerLetter c = true /\ forallb isNameChar r = true.
Proof.
  rewrite regex_test_lang. unfold re_name_chars. split.
  - intros H. apply lang_cat_inv in H as (s1 & s2 & -> & H1 & H2).
    apply lang_cls_inv in H1 as (c & -> & Hc).
    apply lang_star_cls in H2. simpl. eauto.
  - intros (c & r & -> & Hc & Hr). change (c :: r) with ([c] ++ r).
    constructor; [now constructor | now apply lang_star_cls].
Qed.

Lemma re_name_end_spec (s : jsstring) :
  regex_test re_name_end s = true <->
  exists c m l, s = c :: m ++ [l] /\ isLowerLetter c = true
                /\ forallb isNameChar m = true /\ isLowerLetter l = true.
Proof.
  rewrite regex_test_lang. unfold re_name_end. split.
  - intros H. apply lang_cat_inv in H as (s1 & s2 & -> & H1 & H2).
    apply lang_cls_inv in H1 as (c & -> & Hc).
    apply lang_cat_inv in H2 as (m & t & -> & Hm & Ht).
    apply lang_cls_inv in Ht as (l & -> & Hl).
    apply lang_star_cls in Hm. simpl. eauto 8.
  - intros (c & m & l & -> & Hc & Hm & Hl).
    change (c :: m ++ [l]) with ([c] ++ (m ++ [l])).
    constructor; [now constructor|].
    constructor; [now apply lang_star_cls | now constructor].
Qed.

(** ** The reference runtime is a runtime *)

Lemma lower_unit_not_upper (c : code_unit) :
  isUpperLetter (ReferenceRuntime.lower_unit c) = false.
Proof.
  unfold ReferenceRuntime.lower_unit.
  destruct (isUpperLetter c) eqn:E; [|exact E].
  unfold isUpperLetter, in_range in *.
  apply andb_true_iff in E as [H1 H2].
  apply N.leb_le in H1, H2.
  apply andb_false_iff. right. apply N.leb_gt. lia.
Qed.

Lemma reference_toLowerCase_no_upper (s : jsstring) :
  Forall (fun c => isUpperLetter c = false) (ReferenceRuntime.toLowerCase s).
Proof.
  unfold ReferenceRuntime.toLowerCase.
  induction s; simpl; constructor; auto using lower_unit_not_upper.
Qed.

Lemma reference_toLowerCase_ascii_lower (s : jsstring) :
  Forall (fun c => c < 128 /\ isUpperLetter c = false) s ->
  ReferenceRuntime.toLowerCase s = s.
Proof.
  unfold ReferenceRuntime.toLowerCase.
  induction 1 as [|c s [_ Hc] _ IH]; simpl; [reflexivity|].
  rewrite IH. unfold ReferenceRuntime.lower_unit. rewrite Hc. reflexivity.
Qed.

#[export] Instance reference_runtime : Runtime := {|
  toLowerCase := ReferenceRuntime.toLowerCase;
  toLowerCase_no_upper := reference_toLowerCase_no_upper;
  toLowerCase_ascii_lower := reference_toLowerCase_ascii_lower;
  JSON_parse_login := ReferenceRuntime.JSON_parse_login;
  new_URL := ReferenceRuntime.new_URL;
  TypeError := mkError (js "Cannot read properties of undefined")
|}.

(** ** Validation of the name *)

Lemma ZodString_issues_nil (checks : list ZodStringCheck) (s : jsstring) :
  ZodString_issues checks s = [] <->
  forallb (fun c => check_passes c s) checks = true.
Proof.
  unfold ZodString_issues.
  induction checks as [|c cs IH]; simpl; [tauto|].
  destruct (check_passes c s); simpl.
  - exact IH.
  - split; discriminate.
Qed.

Lemma ZodString_issues_messages (checks : list ZodStringCheck) (s : jsstring) :
  Forall (fun m => In m (List.map check_message checks))
         (ZodString_issues checks s).
Proof.
  unfold ZodString_issues. apply Forall_forall. intros m Hm.
  apply in_flat_map in Hm as (c & Hc & Hm).
  destruct (check_passes c s); [destruct Hm|].
  destruct Hm as [<-|[]]. now apply in_map.
Qed.

Lemma isLowerLetter_isNameChar (c : code_unit) :
  isLowerLetter c = true -> isNameChar c = true.
Proof. unfold isNameChar. intros ->. reflexivity. Qed.

(** The five checks together. *)
Lemma nameChecks_pass (s : jsstring) :
  ZodString_issues nameChecks s = [] <->
  (2 <= List.length s <= 50)%nat /\ starts_with_lowercase s
  /\ ends_with_lowercase s /\ only_name_chars s.
Proof.
  rewrite ZodString_issues_nil. unfold nameChecks, nonempty.
  cbn [forallb check_passes].
  rewrite !andb_true_iff, re_name_chars_spec, re_name_end_spec.
  rewrite !Nat.leb_le.
  unfold starts_with_lowercase, ends_with_lowercase, only_name_chars.
  split.
  - intros (_ & H2 & H50 & (c & r & E & Hc & Hr) & (c' & m & l & E' & _ & _ & Hl) & _).
    split; [lia|]. split; [exists c, r; auto|].
    split; [exists (c' :: m), l; auto|].
    subst s. apply Forall_forall. intros x [<-|Hx].
    + now apply isLowerLetter_isNameChar.
    + rewrite forallb_forall in Hr. auto.
  - intros ([H2 H50] & (c & r & E & Hc) & (r' & l & E' & Hl) & Hall).
    rewrite Forall_forall in Hall.
    split; [lia|]. split; [lia|]. split; [lia|]. split; [|split; [|reflexivity]].
    + exists c, r. repeat split; auto.
      apply forallb_forall. intros x Hx. apply Hall. rewrite E. now right.
    + destruct r' as [|c' m].
      * rewrite E' in H2. simpl in H2. lia.
      * exists c, m, l. rewrite E in E'. simpl in E'. injection E' as <- ->.
        repeat split; auto.
        apply forallb_forall.
        intros x Hx. apply Hall. rewrite E. right. apply in_or_app. now left.
Qed.

(** C1, as amended. The name schema accepts a string exactly when its
    length is between 2 and 50, it starts with a lowercase letter, it
    ends with a lowercase letter and it holds only lowercase letters,
    digits and dashes; every other string is rejected with at least one
    issue, each of them on the path [name] and carrying one of the five
    messages of the schema. *)
Theorem nameSchema_accepts_iff (rt : Runtime) (s : jsstring) :
  ((exists v, nameSchema (Some s) = Success v) <->
   (2 <= List.length s <= 50)%nat /\ starts_with_lowercase s
   /\ ends_with_lowercase s /\ only_name_chars s)
  /\
  ((exists v, nameSchema (Some s) = Success v) \/
   (exists issues, nameSchema (Some s) = Failure issues /\ issues <> []
      /\ Forall (fun i => path i = js "name"
                          /\ In (issue_message i)
                                (List.map check_message nameChecks)) issues)).
Proof.
  rewrite <- nameChecks_pass. unfold nameSchema, ZodString_field.
  pose proof (ZodString_issues_messages nameChecks s) as Hm.
  destruct (ZodString_issues nameChecks s) as [|m ms]; split.
  - split; eauto.
  - left; eauto.
  - split; [intros [v Hv]; discriminate | discriminate].
  - right. eexists; split; [reflexivity|]. split; [discriminate|].
    apply Forall_forall. intros i Hi. apply in_map_iff in Hi as (x & <- & Hx).
    rewrite Forall_forall in Hm. split; [reflexivity|]. now apply Hm.
Qed.

(** C1, as stated, fails on a single lowercase letter: the string is
    not longer than 50, starts and ends with a lowercase letter and has
    no other code unit, and the schema rejects it under every runtime. *)
Lemma nameSchema_rejects_single_letter :
  (List.length (js "a") <= 50)%nat
  /\ starts_with_lowercase (js "a")
  /\ ends_with_lowercase (js "a")
  /\ only_name_chars (js "a")
  /\ (forall rt : Runtime,
        @nameSchema rt (Some (js "a")) =
        Failure [ mkIssue (js "name") (js "Name must be at least 2 characters long.");
                  mkIssue (js "name") (js "Name must not end with a number") ]).
Proof.
  repeat split.
  - simpl; lia.
  - exists 97, []; split; reflexivity.
  - exists [], 97; split; reflexivity.
  - repeat constructor.
Qed.

(** ** Normalisation of the name *)

(** Boolean tests on code units, turned into arithmetic. *)
Ltac unit_arith :=
  unfold isSlugChar, isNonWord, isNameChar, isWord, isWordLower, isWhiteSpace,
    isLowerLetter, isUpperLetter, isDigit, in_range,
    DASH, SPACE, UNDERSCORE, NEWLINE in *;
  repeat match goal with
         | H : _ /\ _ |- _ => destruct H
         end;
  repeat (rewrite ?negb_true_iff, ?negb_false_iff, ?andb_true_iff,
            ?orb_true_iff, ?andb_false_iff, ?orb_false_iff,
            ?N.leb_le, ?N.leb_gt, ?N.eqb_eq, ?N.eqb_neq in *);
  lia.

Lemma isNameChar_ascii (c : code_unit) :
  isNameChar c = true -> c < 128 /\ isUpperLetter c = false.
Proof. intros H. split; unit_arith. Qed.

Lemma isSlugChar_ascii (c : code_unit) :
  isSlugChar c = true -> c < 128 /\ isUpperLetter c = false.
Proof. intros H. split; unit_arith. Qed.

Lemma isLowerLetter_not_white (c : code_unit) :
  isLowerLetter c = true -> isWhiteSpace c = false.
Proof. intros H. unit_arith. Qed.

Lemma isWordLower_not_white (c : code_unit) :
  isWordLower c = true -> isWhiteSpace c = false.
Proof. intros H. unit_arith. Qed.

Lemma isWordLower_word (c : code_unit) :
  isWordLower c = true -> isNonWord c = false.
Proof. intros H. unit_arith. Qed.

Lemma word_not_upper_isWordLower (c : code_unit) :
  isNonWord c = false -> isUpperLetter c = false -> isWordLower c = true.
Proof. intros H1 H2. unit_arith. Qed.

Lemma trimStart_fixed (c : code_unit) (r : jsstring) :
  isWhiteSpace c = false -> trimStart (c :: r) = c :: r.
Proof. simpl. intros ->. reflexivity. Qed.

Lemma trimEnd_fixed (r : jsstring) (l : code_unit) :
  isWhiteSpace l = false -> trimEnd (r ++ [l]) = r ++ [l].
Proof.
  intros Hl. induction r as [|a r IH]; simpl.
  - rewrite Hl. reflexivity.
  - rewrite IH. destruct (r ++ [l]) eqn:E; [|reflexivity].
    destruct r; discriminate.
Qed.

Lemma replaceAll_app a b s t :
  replaceAll a b (s ++ t) = replaceAll a b s ++ replaceAll a b t.
Proof. apply map_app. Qed.

Lemma replaceAll_dash_space_inverse (s : jsstring) :
  only_name_chars s ->
  replaceAll SPACE DASH (replaceAll DASH SPACE s) = s.
Proof.
  unfold replaceAll. induction 1 as [|c s Hc _ IH]; simpl; [reflexivity|].
  rewrite IH. f_equal.
  destruct (c =? DASH) eqn:E.
  - apply N.eqb_eq in E. subst c. reflexivity.
  - assert ((c =? SPACE) = false) as -> by unit_arith. reflexivity.
Qed.

Lemma replaceAll_fixed_unit (a b c : code_unit) :
  c <> a -> (if c =? a then b else c) = c.
Proof. intros H. apply N.eqb_neq in H. now rewrite H. Qed.

Lemma trim_fixed (t r r' : jsstring) (c l : code_unit) :
  t = c :: r -> t = r' ++ [l] ->
  isWhiteSpace c = false -> isWhiteSpace l = false -> trim t = t.
Proof.
  intros E E' Hc Hl. unfold trim.
  rewrite E at 1. rewrite trimStart_fixed by assumption.
  rewrite <- E, E'. now apply trimEnd_fixed.
Qed.

Lemma nameTransform_fixed (rt : Runtime) (s : jsstring) :
  starts_with_lowercase s -> ends_with_lowercase s -> only_name_chars s ->
  nameTransform s = s.
Proof.
  intros (c & r & E & Hc) (r' & l & E' & Hl) Hall. unfold nameTransform.
  rewrite toLowerCase_ascii_lower
    by (eapply Forall_impl; [|exact Hall]; apply isNameChar_ascii).
  rewrite (@trim_fixed _ (replaceAll DASH SPACE r) (replaceAll DASH SPACE r') c l).
  - now apply replaceAll_dash_space_inverse.
  - rewrite E. unfold replaceAll. simpl. f_equal.
    apply replaceAll_fixed_unit. unit_arith.
  - rewrite E', replaceAll_app. f_equal. unfold replaceAll. simpl. f_equal.
    apply replaceAll_fixed_unit. unit_arith.
  - now apply isLowerLetter_not_white.
  - now apply isLowerLetter_not_white.
Qed.

(** C6. The transform of the name schema gives back every string that
    starts and ends with a lowercase letter and holds only lowercase
    letters, digits and dashes; so whatever the schema accepts, it
    hands over unchanged. *)
Theorem nameTransform_identity_on_accepted (rt : Runtime) (s : jsstring) :
  starts_with_lowercase s -> ends_with_lowercase s -> only_name_chars s ->
  nameTransform s = s
  /\ (forall v, nameSchema (Some s) = Success v -> v = s).
Proof.
  intros H1 H2 H3.
  pose proof (nameTransform_fixed rt H1 H2 H3) as E. split; [exact E|].
  unfold nameSchema, ZodString_field.
  destruct (ZodString_issues nameChecks s); [|discriminate].
  intros v Hv. injection Hv as <-. exact E.
Qed.

Lemma nameTransform_identity_on_accepted_witness :
  starts_with_lowercase (js "arrow-up-0-z")
  /\ ends_with_lowercase (js "arrow-up-0-z")
  /\ only_name_chars (js "arrow-up-0-z")
  /\ nameTransform (js "arrow-up-0-z") = js "arrow-up-0-z"
  /\ nameSchema (Some (js "arrow-up-0-z")) = Success (js "arrow-up-0-z").
Proof.
  assert (starts_with_lowercase (js "arrow-up-0-z")) as H1
    by (exists 97, (js "rrow-up-0-z"); split; reflexivity).
  assert (ends_with_lowercase (js "arrow-up-0-z")) as H2
    by (exists (js "arrow-up-0-"), 122; split; reflexivity).
  assert (only_name_chars (js "arrow-up-0-z")) as H3
    by (repeat constructor).
  destruct (nameTransform_identity_on_accepted reference_runtime H1 H2 H3)
    as [E _].
  repeat split; try assumption.
Defined.

(** *** The value written on blur

    After the runs of non-word units became single spaces and the ends
    were trimmed, the string is a sequence of words of [[a-z0-9_]] with
    one separator between two of them: [separated sep b t] says so, [b]
    telling that a separator may not come first. *)

Lemma separated_weaken sep t : separated sep true t = true -> separated sep false t = true.
Proof.
  destruct t as [|c r]; simpl; [reflexivity|].
  destruct (c =? sep); [discriminate | auto].
Qed.

Lemma replaceRuns_separated (u : jsstring) :
  Forall (fun c => isUpperLetter c = false) u ->
  forall b, separated SPACE b (replaceRuns_from isNonWord [SPACE] b u) = true.
Proof.
  induction 1 as [|c u Hc _ IH]; intros b; simpl; [reflexivity|].
  destruct (isNonWord c) eqn:Hw.
  - destruct b; [apply IH|]. simpl. apply IH.
  - simpl. assert ((c =? SPACE) = false) as -> by unit_arith.
    rewrite (word_not_upper_isWordLower _ Hw Hc). apply IH.
Qed.

Lemma trimStart_separated (t : jsstring) :
  forall b, separated SPACE b t = true -> separated SPACE true (trimStart t) = true.
Proof.
  induction t as [|c r IH]; intros b H; simpl in *; [reflexivity|].
  destruct (c =? SPACE) eqn:E.
  - apply N.eqb_eq in E. subst c. simpl.
    apply andb_true_iff in H as [_ H]. now apply IH with (b := true).
  - apply andb_true_iff in H as [Hc H].
    rewrite (isWordLower_not_white _ Hc). simpl. now rewrite E, Hc.
Qed.

Lemma trimEnd_separated (t : jsstring) :
  forall b, separated SPACE b t = true -> separated SPACE b (trimEnd t) = true.
Proof.
  induction t as [|c r IH]; intros b H; [reflexivity|].
  cbn [trimEnd].
  assert (forall x, separated SPACE b (c :: x) =
                    if c =? SPACE then negb b && separated SPACE true x
                    else isWordLower c && separated SPACE false x) as Hs
    by reflexivity.
  rewrite Hs in H.
  destruct (trimEnd r) as [|x r'] eqn:Er.
  - destruct (isWhiteSpace c); [reflexivity|].
    rewrite Hs. destruct (c =? SPACE);
      apply andb_true_iff in H as [-> _]; reflexivity.
  - rewrite Hs. destruct (c =? SPACE);
      apply andb_true_iff in H as [-> H]; apply IH in H; exact H.
Qed.

Lemma trimEnd_last (t : jsstring) : last_is SPACE (trimEnd t) = false.
Proof.
  induction t as [|c r IH]; [reflexivity|]. cbn [trimEnd].
  destruct (trimEnd r) as [|x r'].
  - destruct (isWhiteSpace c) eqn:E; [reflexivity|].
    simpl. unit_arith.
  - exact IH.
Qed.

Lemma replaceAll_separated (a b : code_unit) (t : jsstring) :
  isWordLower a = false -> isWordLower b = false ->
  forall f, separated a f t = true ->
            separated b f (replaceAll a b t) = true.
Proof.
  intros Ha Hb. induction t as [|c r IH]; intros f H; simpl in *; [reflexivity|].
  destruct (c =? a) eqn:E.
  - rewrite N.eqb_refl. apply andb_true_iff in H as [-> H]. simpl. now apply IH.
  - apply andb_true_iff in H as [Hc H].
    assert ((c =? b) = false) as ->.
    { apply N.eqb_neq. intros ->. congruence. }
    rewrite Hc. simpl. now apply IH.
Qed.

Lemma replaceAll_last (a b : code_unit) (t : jsstring) :
  isWordLower b = false ->
  forall f, separated a f t = true ->
            last_is b (replaceAll a b t) = last_is a t.
Proof.
  intros Hb. induction t as [|c r IH]; intros f H; [reflexivity|].
  assert (separated a f (c :: r) =
          if c =? a then negb f && separated a true r
          else isWordLower c && separated a false r) as Hs by reflexivity.
  rewrite Hs in H. clear Hs.
  destruct r as [|x r'].
  - simpl. destruct (c =? a) eqn:E; [apply N.eqb_refl|].
    apply andb_true_iff in H as [Hc _].
    apply N.eqb_neq. intros ->. congruence.
  - change (last_is b (replaceAll a b (x :: r')) = last_is a (x :: r')).
    destruct (c =? a); apply andb_true_iff in H as [_ H]; eapply IH; exact H.
Qed.

Lemma separated_chars (t : jsstring) :
  forall f, separated DASH f t = true -> Forall (fun c => isSlugChar c = true) t.
Proof.
  induction t as [|c r IH]; intros f H; constructor; simpl in H.
  - unfold isSlugChar. destruct (c =? DASH); [apply orb_true_r|].
    apply andb_true_iff in H as [-> _]. reflexivity.
  - destruct (c =? DASH); apply andb_true_iff in H as [_ H]; eapply IH; exact H.
Qed.

Lemma last_is_app (sep : code_unit) (r : jsstring) (l : code_unit) :
  last_is sep (r ++ [l]) = (l =? sep).
Proof.
  induction r as [|a r IH]; [reflexivity|].
  simpl app. destruct (r ++ [l]) eqn:E; [destruct r; discriminate|].
  exact IH.
Qed.

(** The shape of the words is a fixed point of the three steps. *)
Lemma replaceRuns_on_separated (t : jsstring) :
  forall b, separated DASH b t = true ->
            replaceRuns_from isNonWord [SPACE] b t = replaceAll DASH SPACE t.
Proof.
  induction t as [|c r IH]; intros b H; simpl in *; [reflexivity|].
  destruct (c =? DASH) eqn:E.
  - apply N.eqb_eq in E. subst c.
    apply andb_true_iff in H as [Hb H]. apply negb_true_iff in Hb. subst b.
    simpl. f_equal. now apply IH.
  - apply andb_true_iff in H as [Hc H].
    rewrite (isWordLower_word _ Hc). f_equal. now apply IH.
Qed.

Lemma trimStart_on_separated (t : jsstring) :
  separated SPACE true t = true -> trimStart t = t.
Proof.
  destruct t as [|c r]; [reflexivity|]. simpl.
  destruct (c =? SPACE); [discriminate|].
  intros H. apply andb_true_iff in H as [Hc _].
  now rewrite (isWordLower_not_white _ Hc).
Qed.

Lemma trimEnd_on_separated (t : jsstring) :
  forall b, separated SPACE b t = true -> last_is SPACE t = false ->
            trimEnd t = t.
Proof.
  induction t as [|c r IH]; intros b H L; [reflexivity|].
  cbn [trimEnd]. destruct r as [|x r'].
  - simpl in *. rewrite L in H. apply andb_true_iff in H as [Hc _].
    now rewrite (isWordLower_not_white _ Hc).
  - assert (trimEnd (x :: r') = x :: r') as ->; [|reflexivity].
    change (last_is SPACE (x :: r') = false) in L.
    assert (separated SPACE b (c :: x :: r') =
            if c =? SPACE then negb b && separated SPACE true (x :: r')
            else isWordLower c && separated SPACE false (x :: r')) as Hs
      by reflexivity.
    rewrite Hs in H. clear Hs.
    destruct (c =? SPACE);
      apply andb_true_iff in H as [_ H]; eapply IH; eassumption.
Qed.

Lemma replaceAll_inverse_on_separated (t : jsstring) :
  forall b, separated DASH b t = true ->
            replaceAll SPACE DASH (replaceAll DASH SPACE t) = t.
Proof.
  unfold replaceAll.
  induction t as [|c r IH]; intros b H; simpl in *; [reflexivity|].
  destruct (c =? DASH) eqn:E.
  - apply N.eqb_eq in E. subst c. simpl.
    apply andb_true_iff in H as [_ H]. f_equal. eapply IH; exact H.
  - apply andb_true_iff in H as [Hc H].
    assert ((c =? SPACE) = false) as -> by unit_arith.
    f_equal. eapply IH; exact H.
Qed.

Section Blur.
Context {rt : Runtime}.

Lemma onBlur_separated (s : jsstring) :
  separated DASH true (nameInput_onBlur_value s) = true
  /\ last_is DASH (nameInput_onBlur_value s) = false.
Proof.
  unfold nameInput_onBlur_value, replaceRuns, trim.
  pose proof (replaceRuns_separated (toLowerCase_no_upper s) false) as H.
  apply trimStart_separated, trimEnd_separated in H.
  split.
  - apply replaceAll_separated; auto.
  - erewrite replaceAll_last; [apply trimEnd_last | reflexivity | exact H].
Qed.

Lemma onBlur_fixed (t : jsstring) :
  separated DASH true t = true -> last_is DASH t = false ->
  nameInput_onBlur_value t = t.
Proof.
  intros H L. unfold nameInput_onBlur_value, replaceRuns, trim.
  rewrite toLowerCase_ascii_lower
    by (eapply Forall_impl; [|exact (separated_chars _ _ H)];
        apply isSlugChar_ascii).
  rewrite (replaceRuns_on_separated _ _ (separated_weaken _ _ H)).
  assert (separated SPACE true (replaceAll DASH SPACE t) = true) as H'
    by (apply replaceAll_separated; auto).
  rewrite (trimStart_on_separated _ H').
  rewrite (trimEnd_on_separated _ _ H').
  - eapply replaceAll_inverse_on_separated; exact H.
  - erewrite replaceAll_last; [exact L | reflexivity | exact H].
Qed.

End Blur.

(** C7. The value the name input writes on blur is a fixed point of
    the blur handler, holds only lowercase letters, digits, underscores
    and dashes, and neither starts nor ends with a dash; the same holds
    in [FormStepNames.tsx], whose handler computes the same value. *)
Theorem onBlur_idempotent_slug (rt : Runtime) (s : jsstring) :
  nameInput_onBlur_value (nameInput_onBlur_value s) = nameInput_onBlur_value s
  /\ Forall (fun c => isSlugChar c = true) (nameInput_onBlur_value s)
  /\ (forall r, nameInput_onBlur_value s <> DASH :: r)
  /\ (forall r, nameInput_onBlur_value s <> r ++ [DASH])
  /\ FormStepNames.onBlur_value s = nameInput_onBlur_value s.
Proof.
  destruct (onBlur_separated s) as [H L].
  split; [now apply onBlur_fixed|].
  split; [exact (separated_chars _ _ H)|].
  split; [|split; [|reflexivity]].
  - intros r E. rewrite E in H. discriminate.
  - intros r E. rewrite E, last_is_app in L. discriminate.
Qed.

(** ** The branch of the advanced options *)

(** C9, as amended. [branch] is optional and unconstrained: absent,
    empty or any other string, it is valid and handed over as it is, so
    the schema of [FormStepNames.tsx] fails exactly when the name does,
    with the issues of the name, and every input with a valid name and
    an absent or an empty branch validates. *)
Theorem branch_optional_unconstrained (rt : Runtime)
    (n b : option jsstring) :
  FormStepNames.branchSchema b = Success b
  /\ FormStepNames.nameStepSchema (FormStepNames.mkValues n b) =
     match nameSchema n with
     | Success v => Success (FormStepNames.mkData v b)
     | Failure i => Failure i
     end
  /\ (forall v, nameSchema n = Success v ->
        FormStepNames.nameStepSchema (FormStepNames.mkValues n None) =
          Success (FormStepNames.mkData v None)
        /\ FormStepNames.nameStepSchema (FormStepNames.mkValues n (Some [])) =
          Success (FormStepNames.mkData v (Some []))).
Proof.
  assert (forall o, FormStepNames.branchSchema o = Success o) as Hb
    by (intros [x|]; reflexivity).
  split; [apply Hb|].
  unfold FormStepNames.nameStepSchema. cbn [FormStepNames.v_name FormStepNames.v_branch].
  split.
  - rewrite Hb. destruct (nameSchema n); simpl; [reflexivity|].
    now rewrite app_nil_r.
  - intros v Hv. rewrite !Hb, Hv. split; reflexivity.
Qed.

(** C9, as stated, fails on an input without a branch whose name is not
    valid: the schema does not validate the one-letter name, with the
    branch absent or empty, under any runtime. *)
Lemma nameStepSchema_fails_without_branch :
  (forall rt : Runtime,
     @FormStepNames.nameStepSchema rt
       (FormStepNames.mkValues (Some (js "a")) None) =
     Failure [ mkIssue (js "name") (js "Name must be at least 2 characters long.");
               mkIssue (js "name") (js "Name must not end with a number") ])
  /\ (forall rt : Runtime,
        @FormStepNames.nameStepSchema rt
          (FormStepNames.mkValues (Some (js "a")) (Some [])) =
        Failure [ mkIssue (js "name") (js "Name must be at least 2 characters long.");
                  mkIssue (js "name") (js "Name must not end with a number") ]).
Proof. split; intros rt; reflexivity. Qed.

(** ** Signing in comes first *)

Section Mutations.
Context {rt : Runtime}.
Variable env : Env.

Lemma mutationFn_unauthenticated (nv : NameStepData) (sv : SubmitValues) (w : World) :
  session_user (session env) = None ->
  onNameNext_mutationFn env nv w = (w, [SignIn (js "github")], Return None)
  /\ onSubmit_mutationFn env sv w = (w, [SignIn (js "github")], Return None).
Proof.
  intros H. unfold onNameNext_mutationFn, onSubmit_mutationFn. rewrite H.
  split; reflexivity.
Qed.

Lemma onNameNext_mutationFn_authenticated (u : User) (nv : NameStepData) (w : World) :
  session_user (session env) = Some u ->
  exists rest r,
    onNameNext_mutationFn env nv w =
      (w, Fetch (js "/api/metadata/" ++ name nv) None :: rest, r)
    /\ existsb is_Fetch rest = false.
Proof.
  intros H. unfold onNameNext_mutationFn. rewrite H.
  unfold bind, fetch, emit, lift, ret. simpl.
  destruct (network env _ None) as [res|e]; simpl.
  - destruct (json res); simpl; eauto.
  - eauto.
Qed.

Lemma onSubmit_mutationFn_authenticated (u : User) (sv : SubmitValues) (w : World) :
  session_user (session env) = Some u ->
  let init := Some (mkRequestInit (js "POST") (submit_body env sv)) in
  onSubmit_mutationFn env sv w =
    (w, [Fetch (js "/api/submit") init; SetTimeout 1500],
     match network env (js "/api/submit") init with
     | Return res =>
         match check_ok res with
         | Return res' => Return (Some res')
         | Throw e => Throw e
         end
     | Throw e => Throw e
     end).
Proof.
  intros H. unfold onSubmit_mutationFn. rewrite H.
  unfold bind, sleep, emit, lift, ret. simpl.
  destruct (network env _ _) as [res|e]; simpl; [|reflexivity].
  destruct (check_ok res); reflexivity.
Qed.

End Mutations.

(** C3. Without a session user each of the two mutation functions
    calls [signIn("github")] and nothing else, fulfils with [undefined]
    and leaves the state alone, and so does the whole mutation, whose
    success callback returns at once; a function issues a request
    exactly when there is a session user. *)
Theorem sign_in_before_any_request (rt : Runtime) (env : Env)
    (nv : NameStepData) (sv : SubmitValues) (w : World) :
  (session_user (session env) = None ->
     onNameNext_mutationFn env nv w = (w, [SignIn (js "github")], Return None)
     /\ onSubmit_mutationFn env sv w = (w, [SignIn (js "github")], Return None)
     /\ onNameNext env nv w = (w, [SignIn (js "github")], Return None)
     /\ onSubmit env sv w = (w, [SignIn (js "github")], Return None))
  /\ (existsb is_Fetch (effects_of (onNameNext_mutationFn env nv w)) = true
      <-> session_user (session env) <> None)
  /\ (existsb is_Fetch (effects_of (onSubmit_mutationFn env sv w)) = true
      <-> session_user (session env) <> None).
Proof.
  split.
  - intros H. destruct (mutationFn_unauthenticated env nv sv w H) as [E1 E2].
    repeat split; auto.
    + unfold onNameNext, mutateAsync, catch, bind. rewrite E1. reflexivity.
    + unfold onSubmit, mutateAsync, catch, bind. rewrite E2. reflexivity.
  - destruct (session_user (session env)) as [u|] eqn:H.
    + destruct (onNameNext_mutationFn_authenticated env nv w H)
        as (rest & r & -> & _).
      rewrite (onSubmit_mutationFn_authenticated env sv w H).
      split; (split; [discriminate | reflexivity]).
    + destruct (mutationFn_unauthenticated env nv sv w H) as [-> ->].
      split; (split; [discriminate | congruence]).
Qed.

Lemma sign_in_before_any_request_witness :
  session_user Sample.signed_out = None
  /\ onNameNext (mkEnv [] Sample.signed_out Sample.backend)
       (mkNameStepData (js "arrow-up")) Sample.world =
     (Sample.world, [SignIn (js "github")], Return None).
Proof.
  split; [reflexivity|].
  apply (sign_in_before_any_request reference_runtime
           (mkEnv [] Sample.signed_out Sample.backend)
           (mkNameStepData (js "arrow-up")) Sample.values Sample.world).
  reflexivity.
Defined.

(** ** The submission settles *)

Lemma onSubmit_onSuccess_opens (rt : Runtime) (res : Response)
    (creation existing : JsField) (u : URL) (w : World) :
  json res = Return (BodyObject creation existing) ->
  new_URL (ToString (nullish_coalesce existing creation)) = Return u ->
  onSubmit_onSuccess (Some res) w =
    (with_open (js "false") w,
     [WindowOpen u (js "_blank"); SetTimeout 2000;
      QueryWrite (js "contributionDialog") (js "false")],
     Return tt).
Proof.
  intros Hj Hu. unfold onSubmit_onSuccess, bind, lift. rewrite Hj. simpl.
  rewrite Hu. reflexivity.
Qed.

(** C4. When the POST is answered ok with the two URLs, the success
    callback builds the URL from [pullRequestExistingUrl] if that is a
    string and from [pullRequestCreationUrl] if it is [undefined] or
    [null], opens it in a tab named [_blank], waits, and then writes
    [false] to the query state of the dialog, which closes it; the whole
    mutation does the request, then exactly this, and fulfils. *)
Theorem submit_success_opens_then_closes (rt : Runtime) (env : Env)
    (usr : User) (sv : SubmitValues) (res : Response)
    (creation existing : JsField) (u : URL) (w : World) :
  session_user (session env) = Some usr ->
  network env (js "/api/submit")
    (Some (mkRequestInit (js "POST") (submit_body env sv))) = Return res ->
  ok res = true ->
  json res = Return (BodyObject creation existing) ->
  new_URL (ToString (match existing with
                     | Str s => Str s
                     | Undefined | Null => creation
                     end)) = Return u ->
  onSubmit_onSuccess (Some res) w =
    (with_open (js "false") w,
     [WindowOpen u (js "_blank"); SetTimeout 2000;
      QueryWrite (js "contributionDialog") (js "false")],
     Return tt)
  /\ onSubmit env sv w =
    (with_open (js "false") w,
     [Fetch (js "/api/submit")
        (Some (mkRequestInit (js "POST") (submit_body env sv)));
      SetTimeout 1500;
      WindowOpen u (js "_blank"); SetTimeout 2000;
      QueryWrite (js "contributionDialog") (js "false")],
     Return (Some res))
  /\ open (with_open (js "false") w) = false.
Proof.
  intros Hs Hn Hok Hj Hu.
  assert (new_URL (ToString (nullish_coalesce existing creation)) = Return u) as Hu'
    by (destruct existing; exact Hu).
  pose proof (onSubmit_onSuccess_opens rt res w Hj Hu') as E.
  split; [exact E|]. split; [|reflexivity].
  unfold onSubmit, mutateAsync, catch, bind.
  rewrite (onSubmit_mutationFn_authenticated env sv w Hs). cbv zeta.
  rewrite Hn. unfold check_ok. rewrite Hok, E. reflexivity.
Qed.

Lemma submit_success_opens_then_closes_witness :
  onSubmit (mkEnv (js "<svg/>") Sample.signed_in Sample.backend)
    Sample.values Sample.world_metadata =
  (with_open (js "false") Sample.world_metadata,
   [Fetch (js "/api/submit")
      (Some (mkRequestInit (js "POST")
         (submit_body (mkEnv (js "<svg/>") Sample.signed_in Sample.backend)
            Sample.values)));
    SetTimeout 1500;
    WindowOpen (mkURL Sample.pull_request) (js "_blank"); SetTimeout 2000;
    QueryWrite (js "contributionDialog") (js "false")],
   Return (Some (mkResponse true (Return [])
                   (Return (BodyObject (Str Sample.pull_request) Undefined))))).
Proof.
  apply (submit_success_opens_then_closes reference_runtime
           (mkEnv (js "<svg/>") Sample.signed_in Sample.backend)
           (usr := Sample.user) Sample.values
           (creation := Str Sample.pull_request) (existing := Undefined)
           (u := mkURL Sample.pull_request) Sample.world_metadata);
    reflexivity.
Defined.

(** C10. When [fetch] rejects, or the response is not ok, the mutation
    rejects with that error (for a response that is not ok: an error
    whose message is the text of the response), after the request and
    the wait and nothing else: no window is opened and no query state is
    written, so the dialog stays open and the step stays; the error
    callback stores the message of the error, or the default message
    when that is empty, as [root.serverError] of the metadata form. *)
Theorem submit_failure_sets_server_error (rt : Runtime) (env : Env)
    (usr : User) (sv : SubmitValues) (err : Error) (w : World) :
  session_user (session env) = Some usr ->
  submit_rejection
    (network env (js "/api/submit")
       (Some (mkRequestInit (js "POST") (submit_body env sv)))) = Some err ->
  let settled := onSubmit env sv w in
  settled =
    (with_serverError (serverError_message err) w,
     [Fetch (js "/api/submit")
        (Some (mkRequestInit (js "POST") (submit_body env sv)));
      SetTimeout 1500],
     Throw err)
  /\ metadataForm_serverError (world_of settled) =
       Some (if jsstring_eqb (message err) []
             then js "An error occurred while submitting the form."
             else message err)
  /\ open (world_of settled) = open w
  /\ step (world_of settled) = step w
  /\ existsb is_WindowOpen (effects_of settled) = false
  /\ existsb (is_QueryWrite (js "contributionDialog")) (effects_of settled) = false
  /\ existsb (is_QueryWrite (js "step")) (effects_of settled) = false.
Proof.
  intros Hs Hr settled.
  assert (settled =
    (with_serverError (serverError_message err) w,
     [Fetch (js "/api/submit")
        (Some (mkRequestInit (js "POST") (submit_body env sv)));
      SetTimeout 1500],
     Throw err)) as E.
  { unfold settled, onSubmit, mutateAsync, catch, bind.
    rewrite (onSubmit_mutationFn_authenticated env sv w Hs). cbv zeta.
    unfold submit_rejection in Hr. unfold check_ok.
    destruct (network env _ _) as [res|e].
    - destruct (ok res); [discriminate|].
      destruct (text res); injection Hr as <-; reflexivity.
    - injection Hr as <-. reflexivity. }
  rewrite E. split; [reflexivity|].
  split.
  - unfold world_of, serverError_message. simpl.
    destruct (message err); reflexivity.
  - repeat split; reflexivity.
Qed.

Lemma submit_failure_sets_server_error_witness :
  session_user Sample.signed_in = Some Sample.user
  /\ onSubmit (mkEnv (js "<svg/>") Sample.signed_in Sample.backend_down)
       Sample.values Sample.world_metadata =
     (with_serverError (js "Bad credentials") Sample.world_metadata,
      [Fetch (js "/api/submit")
         (Some (mkRequestInit (js "POST")
            (submit_body (mkEnv (js "<svg/>") Sample.signed_in Sample.backend_down)
               Sample.values)));
       SetTimeout 1500],
      Throw (mkError (js "Bad credentials"))).
Proof.
  split; [reflexivity|].
  apply (submit_failure_sets_server_error reference_runtime
           (mkEnv (js "<svg/>") Sample.signed_in Sample.backend_down)
           (usr := Sample.user) Sample.values
           (err := mkError (js "Bad credentials")) Sample.world_metadata);
    reflexivity.
Defined.

(** ** The body of the submission *)

Lemma split_not_nil (sep : code_unit) (s : jsstring) : split sep s <> [].
Proof.
  destruct s as [|c r]; simpl; [discriminate|].
  destruct (c =? sep); [discriminate|].
  destruct (split sep r); discriminate.
Qed.

Lemma join_cons (sep w : jsstring) (ws : list jsstring) :
  ws <> [] -> join sep (w :: ws) = w ++ sep ++ join sep ws.
Proof. destruct ws; [congruence | reflexivity]. Qed.

Lemma join_split (sep : code_unit) (s : jsstring) :
  join [sep] (split sep s) = s.
Proof.
  induction s as [|c r IH]; [reflexivity|]. simpl split.
  destruct (c =? sep) eqn:E.
  - apply N.eqb_eq in E. subst c.
    rewrite join_cons by apply split_not_nil. now rewrite IH.
  - pose proof (split_not_nil sep r) as Hn.
    destruct (split sep r) as [|w ws]; [congruence|].
    destruct ws as [|w' ws]; simpl in *; now rewrite <- IH.
Qed.

Lemma split_no_separator (sep : code_unit) (s : jsstring) :
  Forall (fun p => ~ In sep p) (split sep s).
Proof.
  induction s as [|c r IH]; simpl.
  - constructor; auto.
  - destruct (c =? sep) eqn:E.
    + constructor; auto.
    + destruct (split sep r) as [|w ws].
      * constructor; auto. intros [->|[]]. now rewrite N.eqb_refl in E.
      * inversion IH as [|? ? Hw Hws]; subst. constructor; auto.
        intros [->|H]; [now rewrite N.eqb_refl in E | auto].
Qed.

Lemma trimStart_spec (p : jsstring) :
  (exists l, p = l ++ trimStart p /\ Forall (fun c => isWhiteSpace c = true) l)
  /\ (forall c t, trimStart p = c :: t -> isWhiteSpace c = false).
Proof.
  induction p as [|a p [(l & E & Hl) Hh]]; simpl.
  - split; [exists []; auto | discriminate].
  - destruct (isWhiteSpace a) eqn:Ha.
    + split; [|exact Hh]. exists (a :: l). split; [simpl; congruence | auto].
    + split; [exists []; auto|]. intros c t [= <- _]. exact Ha.
Qed.

Lemma trimEnd_spec (q : jsstring) :
  (exists r, q = trimEnd q ++ r /\ Forall (fun c => isWhiteSpace c = true) r)
  /\ (forall t c, trimEnd q = t ++ [c] -> isWhiteSpace c = false)
  /\ (forall c t, trimEnd q = c :: t -> exists t', q = c :: t').
Proof.
  induction q as [|a q [(r & E & Hr) [Hl Hh]]].
  - split; [exists []; auto|]. split; [|discriminate].
    intros [|y t] z; discriminate.
  - cbn [trimEnd]. destruct (trimEnd q) as [|x q'] eqn:Eq; simpl in E.
    + destruct (isWhiteSpace a) eqn:Ha.
      * split; [exists (a :: r); split; [simpl; congruence | auto]|].
        split; [|discriminate]. intros [|y t] z; discriminate.
      * split; [exists r; split; [simpl; congruence | auto]|].
        split; [|intros c t [= <- _]; eauto].
        intros [|y [|y' t]] z; try discriminate. intros [= <-]. exact Ha.
    + split; [exists r; split; [simpl; congruence | auto]|].
      split; [|intros c t [= <- _]; eauto].
      intros [|y t] z; [discriminate|]. intros [= _ E']. eauto.
Qed.

Lemma trim_spec (p : jsstring) : trimmed_of p (trim p).
Proof.
  unfold trim.
  destruct (trimStart_spec p) as [(l & E & Hl) Hh].
  destruct (trimEnd_spec (trimStart p)) as [(r & E' & Hr) [Hlast Hhead]].
  split; [|split].
  - exists l, r. rewrite <- E'. auto.
  - intros c t Et. destruct (Hhead c t Et) as (t' & Et'). eauto.
  - exact Hlast.
Qed.

Lemma lines_spec (text : jsstring) : split_and_trimmed text (lines text).
Proof.
  exists (split NEWLINE text). split.
  - split; [apply split_not_nil|].
    split; [apply join_split | apply split_no_separator].
  - unfold lines. induction (split NEWLINE text); simpl; constructor; auto.
    apply trim_spec.
Qed.

(** C8. With a session user the mutation issues one request, a POST to
    [/api/submit], whose body holds [categories], [tags] and
    [contributors] as arrays, each the text of the field cut at its
    newlines with the white space taken off both ends of every piece,
    next to [name] and to the [value] prop of the dialog. *)
Theorem submit_body_splits_and_trims (rt : Runtime) (env : Env) (usr : User)
    (sv : SubmitValues) (w : World) :
  session_user (session env) = Some usr ->
  exists cats tgs contribs rest,
    effects_of (onSubmit_mutationFn env sv w) =
      Fetch (js "/api/submit")
        (Some (mkRequestInit (js "POST")
           [ (js "categories", JArr cats);
             (js "tags", JArr tgs);
             (js "contributors", JArr contribs);
             (js "name", JStr (s_name sv));
             (js "value", JStr (value env)) ])) :: rest
    /\ existsb is_Fetch rest = false
    /\ cats = List.map trim (split NEWLINE (s_categories sv))
    /\ tgs = List.map trim (split NEWLINE (s_tags sv))
    /\ contribs = List.map trim (split NEWLINE (s_contributors sv))
    /\ split_and_trimmed (s_categories sv) cats
    /\ split_and_trimmed (s_tags sv) tgs
    /\ split_and_trimmed (s_contributors sv) contribs.
Proof.
  intros Hs.
  exists (lines (s_categories sv)), (lines (s_tags sv)),
         (lines (s_contributors sv)), [SetTimeout 1500].
  rewrite (onSubmit_mutationFn_authenticated env sv w Hs).
  repeat split; auto using lines_spec.
Qed.

Lemma submit_body_splits_and_trims_witness :
  session_user Sample.signed_in = Some Sample.user
  /\ exists rest,
      effects_of (onSubmit_mutationFn
                    (mkEnv (js "<svg/>") Sample.signed_in Sample.backend)
                    Sample.values Sample.world_metadata) =
        Fetch (js "/api/submit")
          (Some (mkRequestInit (js "POST")
             [ (js "categories", JArr [js "arrows"]);
               (js "tags", JArr [js "up"; js "north"]);
               (js "contributors", JArr [js "octocat"]);
               (js "name", JStr (js "arrow-up"));
               (js "value", JStr (js "<svg/>")) ])) :: rest.
Proof.
  split; [reflexivity|].
  destruct (submit_body_splits_and_trims reference_runtime
              (mkEnv (js "<svg/>") Sample.signed_in Sample.backend)
              (usr := Sample.user) Sample.values Sample.world_metadata
              eq_refl)
    as (cats & tgs & contribs & rest & E & _ & -> & -> & -> & _).
  exists rest. exact E.
Defined.

(** ** The pre-fill of the metadata form *)

(** C5. The success callback of the lookup leaves every field of the
    metadata form that holds a non-empty value as it is; a field is
    written only when it was [undefined] or empty, and then with the
    lines of the response (for the contributors: followed by the login
    of the session, first occurrences only). The same holds of the whole
    mutation when the lookup answers with the metadata of the icon. *)
Theorem prefill_keeps_filled_fields (rt : Runtime) (env : Env)
    (data : option Body) (w : World) :
  let m := metadataForm_values w in
  let m' := metadataForm_values (world_of (onNameNext_onSuccess env data w)) in
  (falsy (v_categories m) = false -> v_categories m' = v_categories m)
  /\ (falsy (v_tags m) = false -> v_tags m' = v_tags m)
  /\ (falsy (v_contributors m) = false -> v_contributors m' = v_contributors m)
  /\ (v_categories m' <> v_categories m -> falsy (v_categories m) = true)
  /\ (v_tags m' <> v_tags m -> falsy (v_tags m) = true)
  /\ (v_contributors m' <> v_contributors m -> falsy (v_contributors m) = true)
  /\ (forall c t k, data = Some (BodyMetadata c t k) ->
        (falsy (v_categories m) = true ->
           v_categories m' = Some (join [NEWLINE] c))
        /\ (falsy (v_tags m) = true -> v_tags m' = Some (join [NEWLINE] t))
        /\ (falsy (v_contributors m) = true ->
            forall login,
              JSON_parse_login (session_image (session env)) = Return login ->
              v_contributors m' =
                Some (join_array [NEWLINE]
                        (first_truthy_occurrences (List.map Some k ++ [login])))))
  /\ (forall usr vars res c t k,
        session_user (session env) = Some usr ->
        network env (js "/api/metadata/" ++ name vars) None = Return res ->
        json res = Return (BodyMetadata c t k) ->
        let m2 := metadataForm_values (world_of (onNameNext env vars w)) in
        (falsy (v_categories m) = false -> v_categories m2 = v_categories m)
        /\ (falsy (v_tags m) = false -> v_tags m2 = v_tags m)
        /\ (falsy (v_contributors m) = false ->
            v_contributors m2 = v_contributors m)).
Proof.
  intros m m'.
  assert ((falsy (v_categories m) = false -> v_categories m' = v_categories m)
          /\ (falsy (v_tags m) = false -> v_tags m' = v_tags m)
          /\ (falsy (v_contributors m) = false ->
              v_contributors m' = v_contributors m)) as Hkeep.
  { subst m m'. destruct w as [qs qn qo nn ne [vc vt vk] me se].
    unfold onNameNext_onSuccess, world_of.
    destruct data as [d|]; [|simpl; auto].
    destruct (falsy_data (Some d)); [simpl; auto|].
    unfold bind, get, lift, ret, setValue_categories, setValue_tags,
      setValue_contributors, setStep, modify, emit, with_metadata, with_step.
    cbn [metadataForm_values v_categories v_tags v_contributors fst snd
         q_step q_name q_contributionDialog nameForm_name nameForm_errors
         metadataForm_errors metadataForm_serverError].
    destruct (falsy vc) eqn:Fc, (falsy vt) eqn:Ft, (falsy vk) eqn:Fk;
      destruct d as [|p|c t k|a b]; cbn;
      try destruct (JSON_parse_login (session_image (session env)));
      cbn; repeat split; intros; congruence. }
  destruct Hkeep as (Hc & Ht & Hk).
  split; [exact Hc|]. split; [exact Ht|]. split; [exact Hk|].
  split; [|split; [|split; [|split]]].
  - intros N. destruct (falsy (v_categories m)); [reflexivity|].
    destruct N. now apply Hc.
  - intros N. destruct (falsy (v_tags m)); [reflexivity|].
    destruct N. now apply Ht.
  - intros N. destruct (falsy (v_contributors m)); [reflexivity|].
    destruct N. now apply Hk.
  - intros c t k ->. subst m m'.
    destruct w as [qs qn qo nn ne [vc vt vk] me se].
    unfold onNameNext_onSuccess, world_of, falsy_data.
    unfold bind, get, lift, ret, setValue_categories, setValue_tags,
      setValue_contributors, setStep, modify, emit, with_metadata, with_step,
      data_categories, data_tags, data_contributors.
    cbn [metadataForm_values v_categories v_tags v_contributors fst snd
         q_step q_name q_contributionDialog nameForm_name nameForm_errors
         metadataForm_errors metadataForm_serverError].
    destruct (falsy vc) eqn:Fc, (falsy vt) eqn:Ft, (falsy vk) eqn:Fk; cbn;
      try destruct (JSON_parse_login (session_image (session env)));
      cbn; repeat split; intros; congruence.
  - intros usr vars res c t k Hs Hn Hj m2. subst m m2.
    destruct w as [qs qn qo nn ne [vc vt vk] me se].
    unfold onNameNext, mutateAsync, catch, onNameNext_mutationFn, world_of.
    rewrite Hs. unfold fetch, bind, emit, lift, ret. rewrite Hn, Hj.
    unfold onNameNext_onSuccess, onNameNext_onError, falsy_data.
    unfold bind, get, lift, ret, throw, setValue_categories, setValue_tags,
      setValue_contributors, setStep, modify, emit, with_metadata, with_step,
      data_categories, data_tags, data_contributors.
    cbn [metadataForm_values v_categories v_tags v_contributors fst snd
         q_step q_name q_contributionDialog nameForm_name nameForm_errors
         metadataForm_errors metadataForm_serverError].
    destruct (falsy vc) eqn:Fc, (falsy vt) eqn:Ft, (falsy vk) eqn:Fk; cbn;
      try destruct (JSON_parse_login (session_image (session env)));
      cbn; repeat split; intros; congruence.
Qed.

(** ** The wizard *)

Section StepIn.
Variable allowed : list jsstring.

Lemma step_in_ret A (a : A) : step_in allowed (ret a).
Proof. intros w. now left. Qed.

Lemma step_in_throw A (e : Error) : step_in allowed (@throw A e).
Proof. intros w. now left. Qed.

Lemma step_in_lift A (r : result A) : step_in allowed (lift r).
Proof. intros w. now left. Qed.

Lemma step_in_emit (e : Effect) : step_in allowed (emit e).
Proof. intros w. now left. Qed.

Lemma step_in_get : step_in allowed get.
Proof. intros w. now left. Qed.

Lemma step_in_modify (f : World -> World) :
  (forall w, q_step (f w) = q_step w) -> step_in allowed (modify f).
Proof. intros H w. left. apply H. Qed.

Lemma step_in_bind A B (m : M A) (k : A -> M B) :
  step_in allowed m -> (forall a, step_in allowed (k a)) ->
  step_in allowed (bind m k).
Proof.
  intros Hm Hk w. specialize (Hm w). unfold bind, world_of in *.
  destruct (m w) as [[w1 l1] [a|e]]; simpl in *; [|exact Hm].
  specialize (Hk a w1). unfold world_of in Hk.
  destruct (k a w1) as [[w2 l2] r]; simpl in *.
  destruct Hk as [Hk|Hk]; [|now right]. now rewrite Hk.
Qed.

Lemma step_in_catch A (m : M A) (h : Error -> M A) :
  step_in allowed m -> (forall e, step_in allowed (h e)) ->
  step_in allowed (catch m h).
Proof.
  intros Hm Hh w. specialize (Hm w). unfold catch, world_of in *.
  destruct (m w) as [[w1 l1] [a|e]]; simpl in *; [exact Hm|].
  specialize (Hh e w1). unfold world_of in Hh.
  destruct (h e w1) as [[w2 l2] r]; simpl in *.
  destruct Hh as [Hh|Hh]; [|now right]. now rewrite Hh.
Qed.

Lemma step_in_setStep (v : jsstring) : In v allowed -> step_in allowed (setStep v).
Proof. intros H w. right. exists v. split; [exact H | reflexivity]. Qed.

End StepIn.

(** One step into a handler, down to its primitive operations. *)
Ltac step_in_prim :=
  first
    [ apply step_in_ret | apply step_in_throw | apply step_in_lift
    | apply step_in_emit | apply step_in_get
    | apply step_in_modify; intros [? ? ? ? ? ? ? ?]; reflexivity
    | apply step_in_setStep; simpl; tauto
    | apply step_in_bind; [|intros ?]
    | apply step_in_catch; [|intros ?]
    | match goal with
      | |- step_in _ (match ?x with _ => _ end) => destruct x
      end ].

Ltac step_in_tac := repeat step_in_prim.

Section Wizard.
Context {rt : Runtime}.
Variable env : Env.

Lemma onNameNext_step (vars : NameStepData) :
  step_in [js "metadata"] (onNameNext env vars).
Proof.
  unfold onNameNext, mutateAsync, onNameNext_mutationFn, onNameNext_onSuccess,
    onNameNext_onError, signIn, fetch, setValue_categories, setValue_tags,
    setValue_contributors.
  step_in_tac.
Qed.

Lemma onSubmit_step (vars : SubmitValues) : step_in [] (onSubmit env vars).
Proof.
  unfold onSubmit, mutateAsync, onSubmit_mutationFn, onSubmit_onSuccess,
    onSubmit_onError, signIn, sleep, windowOpen, setOpen.
  step_in_tac.
Qed.

Lemma step_in_weaken A (m : M A) (allowed : list jsstring) :
  step_in [] m -> step_in allowed m.
Proof. intros H w. destruct (H w) as [E|(x & [] & _)]. now left. Qed.

Lemma render_cases (w : World) :
  (render w = NameForm <-> step w = js "name")
  /\ (render w = MetadataForm <-> step w <> js "name").
Proof.
  unfold render. destruct (jsstring_eqb (step w) (js "name")) eqn:E.
  - apply jsstring_eqb_eq in E. split; split; auto; try discriminate.
    intros N. now destruct N.
  - apply jsstring_eqb_neq in E. split; split; auto; try discriminate.
    intros N. now destruct E.
Qed.

End Wizard.


(** ** The component at work, on the sample inputs *)

Example onBlur_arrow_up :
  nameInput_onBlur_value ([32; 32] ++ js "Arrow  Up_2!?" ++ [9]) = js "arrow-up_2".
Proof. reflexivity. Qed.

Example onChange_arrow_up :
  nameInput_onChange_value (js "Arrow  Up!") = js "arrow-up-".
Proof. reflexivity. Qed.

Example nameSchema_arrow_up :
  nameSchema (Some (js "arrow-up")) = Success (js "arrow-up").
Proof. reflexivity. Qed.

Example nameSchema_trailing_digit :
  nameSchema (Some (js "arrow-2")) =
  Failure [mkIssue (js "name") (js "Name must not end with a number")].
Proof. reflexivity. Qed.

Example nameSchema_empty :
  List.map issue_message (issues_of (nameSchema (Some []))) =
  [ js "Name is required.";
    js "Name must be at least 2 characters long.";
    js "Name must start with a letter and contain only letters, numbers and dashes.";
    js "Name must not end with a number" ].
Proof. reflexivity. Qed.

Example lines_of_tags :
  lines (s_tags Sample.values) = [js "up"; js "north"].
Proof. reflexivity. Qed.

Example split_trailing_newline :
  split NEWLINE (js "a" ++ [10]) = [js "a"; []].
Proof. reflexivity. Qed.

(** Next on the name step, signed in: one lookup, the three fields
    filled, the login of the session added once, and the second step. *)
Example name_step_next :
  dispatch (mkEnv (js "<svg/>") Sample.signed_in Sample.backend) NameFormSubmit
    (with_nameForm (js "arrow-up") [] Sample.world) =
  (mkWorld (Some (js "metadata")) None None (js "arrow-up") []
     (mkMetadataValues (Some (js "arrows"))
        (Some (js "up" ++ [10] ++ js "north"))
        (Some (js "octocat" ++ [10] ++ js "ericfennis")))
     [] None,
   [Fetch (js "/api/metadata/arrow-up") None;
    QueryWrite (js "step") (js "metadata")]).
Proof. reflexivity. Qed.

(** Signed out, the same click signs in and stays on the name step. *)
Example name_step_next_signed_out :
  dispatch (mkEnv (js "<svg/>") Sample.signed_out Sample.backend) NameFormSubmit
    (with_nameForm (js "arrow-up") [] Sample.world) =
  (with_nameForm (js "arrow-up") [] Sample.world, [SignIn (js "github")]).
Proof. reflexivity. Qed.

(** A field filled in by hand survives the lookup. *)
Example prefill_keeps_tags :
  metadataForm_values
    (world_of
       (onNameNext_onSuccess (mkEnv [] Sample.signed_in Sample.backend)
          (Some (BodyMetadata [js "arrows"] [js "up"] [js "ericfennis"]))
          (with_metadata (mkMetadataValues None (Some (js "mine")) (Some []))
             Sample.world))) =
  mkMetadataValues (Some (js "arrows")) (Some (js "mine"))
    (Some (js "ericfennis" ++ [10] ++ js "octocat")).
Proof. reflexivity. Qed.

(** An event of the form that is not on screen changes nothing. *)
Example back_on_name_step :
  dispatch (mkEnv [] Sample.signed_in Sample.backend) BackClick Sample.world =
  (Sample.world, []).
Proof. reflexivity. Qed.

(* ================================================================== *)
(** * Further properties of the two files *)

(** ** The messages of the name schema *)

Lemma re_name_chars_bool (s : jsstring) :
  regex_test re_name_chars s =
  match s with
  | [] => false
  | c :: r => isLowerLetter c && forallb isNameChar r
  end.
Proof.
  apply eq_true_iff_eq. rewrite re_name_chars_spec.
  destruct s as [|c r].
  - split; [intros (c & r & E & _); discriminate | discriminate].
  - rewrite andb_true_iff. split.
    + intros (c' & r' & E & H). injection E as <- <-. exact H.
    + intros [H1 H2]. eauto.
Qed.

Lemma re_name_end_bool (c : code_unit) (r : jsstring) :
  r <> [] -> forallb isNameChar r = true -> isLowerLetter c = true ->
  regex_test re_name_end (c :: r) = isLowerLetter (List.last r c).
Proof.
  intros Hr Hall Hc. apply eq_true_iff_eq. rewrite re_name_end_spec. split.
  - intros (c' & m & l & E & _ & _ & Hl). injection E as <- ->.
    now rewrite last_last.
  - intros Hl. exists c, (removelast r), (List.last r c).
    rewrite <- app_removelast_last by exact Hr.
    repeat split; auto.
    apply forallb_forall. intros x Hx. rewrite forallb_forall in Hall.
    apply Hall. rewrite (app_removelast_last c Hr). apply in_or_app. now left.
Qed.

Lemma ZodString_field_messages A (key : jsstring)
    (checks : list ZodStringCheck) (tr : jsstring -> A) (s : jsstring) :
  List.map issue_message (issues_of (ZodString_field key checks tr (Some s))) =
  ZodString_issues checks s.
Proof.
  unfold ZodString_field.
  destruct (ZodString_issues checks s) as [|m l]; [reflexivity|].
  cbn [issues_of]. rewrite map_map. apply map_id.
Qed.

(** X1. The message shown first for a name depends on its length, then
    on its units, then on its last unit: in particular a name of valid
    units that ends with a dash is told not to end with a number. *)
Theorem nameSchema_first_message (rt : Runtime) (s : jsstring) :
  hd_error (List.map issue_message (issues_of (nameSchema (Some s)))) =
  first_name_message s.
Proof.
  unfold nameSchema. rewrite ZodString_field_messages.
  destruct s as [|c [|x r]]; [reflexivity | reflexivity |].
  unfold ZodString_issues, nameChecks, nonempty, first_name_message.
  cbn [flat_map check_passes check_message].
  change (Nat.leb 1 (List.length (c :: x :: r))) with true.
  change (Nat.leb 2 (List.length (c :: x :: r))) with true.
  cbn [app]. unfold Nat.ltb.
  destruct (Nat.leb (List.length (c :: x :: r)) 50) eqn:E50.
  - assert (Nat.leb 51 (List.length (c :: x :: r)) = false) as ->.
    { apply Nat.leb_le in E50. apply Nat.leb_gt. lia. }
    cbn [app]. rewrite re_name_chars_bool.
    destruct (isLowerLetter c && forallb isNameChar (x :: r)) eqn:E1.
    + apply andb_true_iff in E1 as [Hc Hall].
      rewrite re_name_end_bool by (auto; discriminate).
      cbn [app negb]. destruct (isLowerLetter (List.last (x :: r) c)); reflexivity.
    + reflexivity.
  - assert (Nat.leb 51 (List.length (c :: x :: r)) = true) as ->.
    { apply Nat.leb_gt in E50. apply Nat.leb_le. lia. }
    reflexivity.
Qed.

(** ** The schema of the metadata step *)

(** X2. The metadata schema accepts exactly the values whose three
    fields are present and not empty, and hands them over as they are
    (a field of blanks passes); otherwise every field at fault has its
    own issue, in the order categories, tags, contributors, with the
    message [Required] for a field never touched. *)
Theorem metadataStepSchema_spec (v : MetadataValues) :
  (forall d, metadataStepSchema v = Success d <->
     v = mkMetadataValues (Some (categories d)) (Some (tags d))
           (Some (contributors d))
     /\ categories d <> [] /\ tags d <> [] /\ contributors d <> [])
  /\ issues_of (metadataStepSchema v) =
       metadata_field_issue (js "categories") (js "Categories are required.")
         (v_categories v)
       ++ metadata_field_issue (js "tags") (js "Tags are required.") (v_tags v)
       ++ metadata_field_issue (js "contributors")
            (js "Contributors are required.") (v_contributors v).
Proof.
  split.
  - intros [dc dt dk]. cbn [categories tags contributors]. split.
    + intros H.
      destruct v as [[[|c cs]|] [[|t ts]|] [[|k ks]|]]; cbn in H;
        try discriminate.
      injection H as <- <- <-. repeat split; discriminate.
    + intros (-> & Hc & Ht & Hk).
      destruct dc; [congruence|]. destruct dt; [congruence|].
      destruct dk; [congruence|]. reflexivity.
  - destruct v as [[[|c cs]|] [[|t ts]|] [[|k ks]|]]; reflexivity.
Qed.

(** ** The value written while typing *)

Lemma replaceRuns_separated_by (sep : code_unit) (u : jsstring) :
  isNonWord sep = true ->
  Forall (fun c => isUpperLetter c = false) u ->
  forall b, separated sep b (replaceRuns_from isNonWord [sep] b u) = true.
Proof.
  intros Hsep. induction 1 as [|c u Hc _ IH]; intros b; simpl; [reflexivity|].
  destruct (isNonWord c) eqn:Hw.
  - destruct b; [apply IH|]. simpl. rewrite N.eqb_refl. apply IH.
  - simpl. assert ((c =? sep) = false) as ->.
    { apply N.eqb_neq. intros ->. congruence. }
    rewrite (word_not_upper_isWordLower _ Hw Hc). apply IH.
Qed.

Lemma replaceRuns_on_separated_by (x : code_unit) (t : jsstring) :
  forall b, separated DASH b t = true ->
            replaceRuns_from isNonWord [x] b t = replaceAll DASH x t.
Proof.
  induction t as [|c r IH]; intros b H; simpl in *; [reflexivity|].
  destruct (c =? DASH) eqn:E.
  - apply N.eqb_eq in E. subst c.
    apply andb_true_iff in H as [Hb H]. apply negb_true_iff in Hb. subst b.
    simpl. f_equal. now apply IH.
  - apply andb_true_iff in H as [Hc H].
    rewrite (isWordLower_word _ Hc). f_equal. now apply IH.
Qed.

Lemma replaceAll_same (a : code_unit) (t : jsstring) : replaceAll a a t = t.
Proof.
  unfold replaceAll. induction t as [|c r IH]; simpl; [reflexivity|].
  rewrite IH. destruct (c =? a) eqn:E; [|reflexivity].
  apply N.eqb_eq in E. now subst.
Qed.

(** Replacing the runs by [a] and then [a] by [b] is replacing the runs
    by [b], for a unit [a] of the class. *)
Lemma replaceAll_replaceRuns (cls : code_unit -> bool) (a b : code_unit)
    (u : jsstring) :
  cls a = true ->
  forall f, replaceAll a b (replaceRuns_from cls [a] f u) =
            replaceRuns_from cls [b] f u.
Proof.
  intros Ha. induction u as [|c u IH]; intros f; simpl; [reflexivity|].
  destruct (cls c) eqn:Hc.
  - destruct f; [apply IH|]. simpl. rewrite N.eqb_refl. f_equal. apply IH.
  - simpl. assert ((c =? a) = false) as ->.
    { apply N.eqb_neq. intros ->. congruence. }
    f_equal. apply IH.
Qed.

Lemma separated_no_double (sep : code_unit) (t : jsstring) :
  forall b, separated sep b t = true ->
            forall x y, t <> x ++ sep :: sep :: y.
Proof.
  induction t as [|c r IH]; intros b H x y E.
  - destruct x; discriminate.
  - destruct x as [|c' x]; simpl in E.
    + injection E as -> ->. simpl in H. rewrite !N.eqb_refl in H.
      apply andb_true_iff in H as [_ H]. discriminate.
    + injection E as <- ->. simpl in H.
      destruct (c =? sep); apply andb_true_iff in H as [_ H];
        exact (IH _ H x y eq_refl).
Qed.

Section Typing.
Context {rt : Runtime}.

Lemma onChange_separated (s : jsstring) :
  separated DASH false (nameInput_onChange_value s) = true.
Proof.
  unfold nameInput_onChange_value, replaceRuns.
  apply replaceRuns_separated_by; [reflexivity | apply toLowerCase_no_upper].
Qed.

Lemma onChange_fixed (t : jsstring) :
  separated DASH false t = true -> nameInput_onChange_value t = t.
Proof.
  intros H. unfold nameInput_onChange_value, replaceRuns.
  rewrite toLowerCase_ascii_lower
    by (eapply Forall_impl; [|exact (separated_chars _ _ H)];
        apply isSlugChar_ascii).
  rewrite (replaceRuns_on_separated_by DASH _ _ H). apply replaceAll_same.
Qed.

Lemma onBlur_of_separated (t : jsstring) :
  separated DASH false t = true ->
  nameInput_onBlur_value t =
  replaceAll SPACE DASH (trim (replaceAll DASH SPACE t)).
Proof.
  intros H. unfold nameInput_onBlur_value, replaceRuns.
  rewrite toLowerCase_ascii_lower
    by (eapply Forall_impl; [|exact (separated_chars _ _ H)];
        apply isSlugChar_ascii).
  now rewrite (replaceRuns_on_separated_by SPACE _ _ H).
Qed.

End Typing.

(** X3. The value the name input writes while typing is a fixed point of
    the change handler, holds only lowercase letters, digits, underscores
    and dashes, and never two dashes in a row. *)
Theorem onChange_idempotent_single_dashes (rt : Runtime) (s : jsstring) :
  nameInput_onChange_value (nameInput_onChange_value s) =
    nameInput_onChange_value s
  /\ Forall (fun c => isSlugChar c = true) (nameInput_onChange_value s)
  /\ (forall x y, nameInput_onChange_value s <> x ++ DASH :: DASH :: y).
Proof.
  pose proof (onChange_separated s) as H.
  split; [now apply onChange_fixed|].
  split; [exact (separated_chars _ _ H) | exact (@separated_no_double _ _ _ H)].
Qed.

(** X4. Leaving the input after typing gives what leaving it at once
    would have given, and a value written on blur is not touched when
    the change handler sees it again: the two handlers of the name input
    agree on what a finished name is. *)
Theorem onBlur_absorbs_onChange (rt : Runtime) (s : jsstring) :
  nameInput_onBlur_value (nameInput_onChange_value s) = nameInput_onBlur_value s
  /\ nameInput_onChange_value (nameInput_onBlur_value s) = nameInput_onBlur_value s.
Proof.
  split.
  - rewrite (onBlur_of_separated _ (onChange_separated s)).
    unfold nameInput_onChange_value, nameInput_onBlur_value, replaceRuns.
    now rewrite replaceAll_replaceRuns.
  - apply onChange_fixed, separated_weaken. apply onBlur_separated.
Qed.

(** ** The lines of a field *)

Lemma split_length (sep : code_unit) (s : jsstring) :
  List.length (split sep s) = S (count_occ N.eq_dec s sep).
Proof.
  induction s as [|c r IH]; [reflexivity|]. simpl split.
  cbn [count_occ]. destruct (N.eq_dec c sep) as [->|N].
  - rewrite N.eqb_refl. simpl. now rewrite IH.
  - apply N.eqb_neq in N. rewrite N.
    destruct (split sep r) as [|w ws]; [discriminate|]. exact IH.
Qed.

Lemma trimmed_of_incl (p e : jsstring) (c : code_unit) :
  trimmed_of p e -> In c e -> In c p.
Proof.
  intros [(l & r & -> & _) _] H. apply in_or_app. right.
  apply in_or_app. now left.
Qed.

(** X5. A field is sent as one entry more than it has newlines: never
    as an empty array, and with an empty entry for every blank line; no
    entry holds a newline or has white space at its ends. *)
Theorem lines_count (text : jsstring) :
  List.length (lines text) = S (count_occ N.eq_dec text NEWLINE)
  /\ Forall (fun e => ~ In NEWLINE e /\ no_outer_space e) (lines text).
Proof.
  split.
  - unfold lines. rewrite length_map. apply split_length.
  - unfold lines. pose proof (split_no_separator NEWLINE text) as H.
    induction H as [|p ps Hp _ IH]; simpl; constructor; auto.
    pose proof (trim_spec p) as T. split.
    + intros Hin. apply Hp. exact (@trimmed_of_incl _ _ _ T Hin).
    + destruct T as (_ & H1 & H2). split; assumption.
Qed.

Lemma split_without_separator (sep : code_unit) (w : jsstring) :
  ~ In sep w -> split sep w = [w].
Proof.
  induction w as [|c r IH]; intros H; [reflexivity|]. simpl.
  destruct (c =? sep) eqn:E.
  - apply N.eqb_eq in E. subst. destruct H. now left.
  - rewrite IH; [reflexivity|]. intros Hin. apply H. now right.
Qed.

Lemma split_app_separator (sep : code_unit) (w rest : jsstring) :
  ~ In sep w -> split sep (w ++ sep :: rest) = w :: split sep rest.
Proof.
  induction w as [|c r IH]; intros H; simpl.
  - now rewrite N.eqb_refl.
  - destruct (c =? sep) eqn:E.
    + apply N.eqb_eq in E. subst. destruct H. now left.
    + rewrite IH; [reflexivity|]. intros Hin. apply H. now right.
Qed.

Lemma split_join (sep : code_unit) (l : list jsstring) :
  l <> [] -> Forall (fun p => ~ In sep p) l -> split sep (join [sep] l) = l.
Proof.
  intros Hl H. revert Hl.
  induction H as [|w ws Hw Hws IH]; intros Hl; [now destruct Hl|].
  destruct ws as [|w' ws].
  - simpl. now apply split_without_separator.
  - rewrite join_cons by discriminate. simpl app.
    rewrite split_app_separator by exact Hw. f_equal. apply IH. discriminate.
Qed.

Lemma trim_no_outer_space (p : jsstring) : no_outer_space p -> trim p = p.
Proof.
  intros [H1 H2]. destruct p as [|c t]; [reflexivity|].
  destruct (exists_last (l := c :: t)) as (t' & l & E); [discriminate|].
  apply (@trim_fixed (c :: t) t t' c l); eauto.
Qed.

(** X6. What the lookup puts in a field comes back unchanged in the
    submission, if nobody edits the field: joining with newlines and
    then cutting into lines is the identity on a non-empty list of
    entries without newlines and without white space at their ends.
    The empty list does not come back: it becomes one empty entry. *)
Theorem lines_join_roundtrip (l : list jsstring) :
  l <> [] ->
  Forall (fun e => ~ In NEWLINE e /\ no_outer_space e) l ->
  lines (join [NEWLINE] l) = l.
Proof.
  intros Hl H. unfold lines. rewrite split_join.
  - clear Hl. induction H as [|e es [_ He] _ IH]; [reflexivity|]. simpl.
    rewrite (trim_no_outer_space He). f_equal. exact IH.
  - exact Hl.
  - eapply Forall_impl; [|exact H]. now intros e [He _].
Qed.

Lemma lines_join_roundtrip_witness :
  [js "up"; js "north"] <> []
  /\ Forall (fun e => ~ In NEWLINE e /\ no_outer_space e) [js "up"; js "north"]
  /\ lines (join [NEWLINE] [js "up"; js "north"]) = [js "up"; js "north"]
  /\ lines (join [NEWLINE] []) = [[]].
Proof.
  assert (forall e, forallb (fun c => negb (c =? NEWLINE)) e = true ->
                    ~ In NEWLINE e) as Hn.
  { intros e He Hin. rewrite forallb_forall in He.
    specialize (He _ Hin). now rewrite N.eqb_refl in He. }
  assert (no_outer_space (js "up")) as H1.
  { split.
    - intros c t [= <- _]. reflexivity.
    - intros [|a [|b t]] c; intros [=]; subst; try reflexivity.
      destruct t; discriminate. }
  assert (no_outer_space (js "north")) as H2.
  { split.
    - intros c t [= <- _]. reflexivity.
    - intros [|a1 [|a2 [|a3 [|a4 [|a5 t]]]]] c; intros [=]; subst;
        try reflexivity.
      destruct t; discriminate. }
  assert (Forall (fun e => ~ In NEWLINE e /\ no_outer_space e)
            [js "up"; js "north"]) as HF.
  { constructor; [split; [apply Hn; reflexivity | exact H1]|].
    constructor; [split; [apply Hn; reflexivity | exact H2]|]. constructor. }
  assert ([js "up"; js "north"] <> []) as HN by discriminate.
  split; [exact HN|]. split; [exact HF|].
  split; [exact (lines_join_roundtrip HN HF) | reflexivity].
Defined.

(** ** The contributors, each one once *)

Lemma option_jsstring_eqb_eq (a b : option jsstring) :
  option_jsstring_eqb a b = true <-> a = b.
Proof.
  destruct a as [x|], b as [y|]; simpl; try (split; [discriminate|congruence]).
  - rewrite jsstring_eqb_eq. split; congruence.
  - tauto.
Qed.

Lemma indexOf_first (pre r : list (option jsstring)) (x : option jsstring) :
  (~ In x pre -> indexOf (pre ++ x :: r) x = Some (List.length pre))
  /\ (In x pre -> exists i, indexOf (pre ++ x :: r) x = Some i
                            /\ (i < List.length pre)%nat).
Proof.
  induction pre as [|y pre [IH1 IH2]]; simpl.
  - split; [|tauto]. intros _.
    assert (option_jsstring_eqb x x = true) as -> by now apply option_jsstring_eqb_eq.
    reflexivity.
  - destruct (option_jsstring_eqb y x) eqn:E.
    + apply option_jsstring_eqb_eq in E. subst y. split.
      * intros N. destruct N. now left.
      * intros _. exists O. split; [reflexivity | lia].
    + assert (y <> x) as N.
      { intros ->. assert (option_jsstring_eqb x x = true) as E'
          by now apply option_jsstring_eqb_eq.
        congruence. }
      split.
      * intros H. rewrite IH1 by tauto. reflexivity.
      * intros [H|H]; [congruence|]. destruct (IH2 H) as (i & -> & Hi).
        exists (S i). split; [reflexivity | lia].
Qed.

(** The test of the filter at the index where [x] stands: [x] is truthy
    and has not occurred before. *)
Lemma first_occurrence_test (pre r : list (option jsstring)) (x : option jsstring) :
  (negb (falsy x) &&
   match indexOf (pre ++ x :: r) x with
   | Some i => Nat.eqb i (List.length pre)
   | None => false
   end) = true <-> falsy x = false /\ ~ In x pre.
Proof.
  rewrite andb_true_iff, negb_true_iff.
  destruct (indexOf_first pre r x) as [H1 H2].
  split; intros [Hx H]; (split; [exact Hx|]).
  - intros Hin. destruct (H2 Hin) as (i & E & Hi). rewrite E in H.
    apply Nat.eqb_eq in H. lia.
  - rewrite (H1 H). apply Nat.eqb_refl.
Qed.

Lemma filter_from_first_occurrences (arr l : list (option jsstring)) :
  forall pre, arr = pre ++ l ->
  let res :=
    filter_from
      (fun val idx =>
         negb (falsy val) &&
         match indexOf arr val with
         | Some i => Nat.eqb i idx
         | None => false
         end) (List.length pre) l in
  (forall x, In x res <-> In x l /\ falsy x = false /\ ~ In x pre)
  /\ NoDup res
  /\ (NoDup arr -> Forall (fun x => falsy x = false) l -> res = l).
Proof.
  induction l as [|y r IH]; intros pre E res; subst res.
  - simpl. split; [tauto|]. split; [constructor | reflexivity].
  - assert (arr = (pre ++ [y]) ++ r) as E' by (now rewrite <- app_assoc).
    specialize (IH (pre ++ [y]) E').
    rewrite length_app, Nat.add_comm in IH. cbn [List.length Nat.add] in IH.
    destruct IH as (IHin & IHnd & IHid).
    cbn [filter_from].
    pose proof (first_occurrence_test pre r y) as T. rewrite <- E in T.
    destruct (negb (falsy y) && _) eqn:K.
    + destruct (proj1 T eq_refl) as [Hy Hpre]. split; [|split].
      * intros x. simpl. rewrite IHin, in_app_iff. simpl.
        split.
        -- intros [->|(H1 & H2 & H3)]; [tauto|]. tauto.
        -- intros ([->|H1] & H2 & H3); [tauto|].
           destruct (option_jsstring_eqb y x) eqn:Eyx.
           ++ apply option_jsstring_eqb_eq in Eyx. tauto.
           ++ right. repeat split; auto. intros [H|[H|[]]]; [tauto|].
              apply option_jsstring_eqb_eq in H. congruence.
      * constructor; [|exact IHnd]. rewrite IHin, in_app_iff. simpl. tauto.
      * intros Hnd HF. f_equal. apply IHid; [exact Hnd|].
        exact (Forall_inv_tail HF).
    + split; [|split].
      * intros x. rewrite IHin, in_app_iff. simpl. split.
        -- intros (H1 & H2 & H3). tauto.
        -- intros ([->|H1] & H2 & H3).
           ++ assert (true = false) by (rewrite <- (proj2 T (conj H2 H3)); reflexivity).
              discriminate.
           ++ repeat split; auto. intros [H|[H|[]]]; [tauto|].
              subst y. assert (true = false)
                by (rewrite <- (proj2 T (conj H2 H3)); reflexivity).
              discriminate.
      * exact IHnd.
      * intros Hnd HF. pose proof (Forall_inv HF) as Hy. simpl in Hy.
        assert (~ In y pre) as Hpre.
        { rewrite E in Hnd. apply NoDup_remove_2 in Hnd.
          intros H. apply Hnd. apply in_or_app. now left. }
        assert (true = false) by (rewrite <- (proj2 T (conj Hy Hpre)); reflexivity).
        discriminate.
Qed.

(** X7. The filter of the contributors keeps, in place, the first
    occurrence of every truthy entry and nothing else: the result has no
    duplicates, holds exactly the entries of the array that are neither
    [undefined] nor empty, and is the array itself when that had no
    duplicates and no such entries. *)
Theorem first_truthy_occurrences_spec (arr : list (option jsstring)) :
  NoDup (first_truthy_occurrences arr)
  /\ (forall x, In x (first_truthy_occurrences arr) <->
                In x arr /\ falsy x = false)
  /\ (NoDup arr -> Forall (fun x => falsy x = false) arr ->
      first_truthy_occurrences arr = arr).
Proof.
  destruct (@filter_from_first_occurrences arr arr [] eq_refl) as (Hin & Hnd & Hid).
  split; [exact Hnd|]. split; [|exact Hid].
  intros x. unfold first_truthy_occurrences. rewrite (Hin x). simpl. tauto.
Qed.

(** ** Frames and effects of the handlers *)

Section Preserves.
Variable X : Type.
Variable f : World -> X.

Lemma preserves_ret A (a : A) : preserves f (ret a).
Proof. intros w. reflexivity. Qed.

Lemma preserves_throw A (e : Error) : preserves f (@throw A e).
Proof. intros w. reflexivity. Qed.

Lemma preserves_lift A (r : result A) : preserves f (lift r).
Proof. intros w. reflexivity. Qed.

Lemma preserves_emit (e : Effect) : preserves f (emit e).
Proof. intros w. reflexivity. Qed.

Lemma preserves_get : preserves f get.
Proof. intros w. reflexivity. Qed.

Lemma preserves_modify (g : World -> World) :
  (forall w, f (g w) = f w) -> preserves f (modify g).
Proof. intros H w. apply H. Qed.

Lemma preserves_bind A B (m : M A) (k : A -> M B) :
  preserves f m -> (forall a, preserves f (k a)) -> preserves f (bind m k).
Proof.
  intros Hm Hk w. specialize (Hm w). unfold bind, world_of in *.
  destruct (m w) as [[w1 l1] [a|e]]; simpl in *; [|exact Hm].
  specialize (Hk a w1). unfold world_of in Hk.
  destruct (k a w1) as [[w2 l2] r]; simpl in *. congruence.
Qed.

Lemma preserves_catch A (m : M A) (h : Error -> M A) :
  preserves f m -> (forall e, preserves f (h e)) -> preserves f (catch m h).
Proof.
  intros Hm Hh w. specialize (Hm w). unfold catch, world_of in *.
  destruct (m w) as [[w1 l1] [a|e]]; simpl in *; [exact Hm|].
  specialize (Hh e w1). unfold world_of in Hh.
  destruct (h e w1) as [[w2 l2] r]; simpl in *. congruence.
Qed.

End Preserves.

Section Emits.
Variable P : Effect -> Prop.

Lemma emits_ret A (a : A) : emits P (ret a).
Proof. intros w. constructor. Qed.

Lemma emits_throw A (e : Error) : emits P (@throw A e).
Proof. intros w. constructor. Qed.

Lemma emits_lift A (r : result A) : emits P (lift r).
Proof. intros w. constructor. Qed.

Lemma emits_get : emits P get.
Proof. intros w. constructor. Qed.

Lemma emits_modify (g : World -> World) : emits P (modify g).
Proof. intros w. constructor. Qed.

Lemma emits_emit (e : Effect) : P e -> emits P (emit e).
Proof. intros H w. repeat constructor. exact H. Qed.

Lemma emits_bind A B (m : M A) (k : A -> M B) :
  emits P m -> (forall a, emits P (k a)) -> emits P (bind m k).
Proof.
  intros Hm Hk w. specialize (Hm w). unfold bind, effects_of in *.
  destruct (m w) as [[w1 l1] [a|e]]; simpl in *; [|exact Hm].
  specialize (Hk a w1). unfold effects_of in Hk.
  destruct (k a w1) as [[w2 l2] r]; simpl in *.
  apply Forall_app. split; assumption.
Qed.

Lemma emits_catch A (m : M A) (h : Error -> M A) :
  emits P m -> (forall e, emits P (h e)) -> emits P (catch m h).
Proof.
  intros Hm Hh w. specialize (Hm w). unfold catch, effects_of in *.
  destruct (m w) as [[w1 l1] [a|e]]; simpl in *; [exact Hm|].
  specialize (Hh e w1). unfold effects_of in Hh.
  destruct (h e w1) as [[w2 l2] r]; simpl in *.
  apply Forall_app. split; assumption.
Qed.

End Emits.

Ltac preserves_prim :=
  first
    [ apply preserves_ret | apply preserves_throw | apply preserves_lift
    | apply preserves_emit | apply preserves_get
    | apply preserves_modify; intros ?; reflexivity
    | apply preserves_bind; [|intros ?]
    | apply preserves_catch; [|intros ?]
    | match goal with
      | |- preserves _ (match ?x with _ => _ end) => destruct x
      end ].

Ltac emits_prim :=
  first
    [ apply emits_ret | apply emits_throw | apply emits_lift
    | apply emits_get | apply emits_modify
    | apply emits_bind; [|intros ?]
    | apply emits_catch; [|intros ?]
    | match goal with
      | |- emits _ (match ?x with _ => _ end) => destruct x eqn:?
      end ].

(** The two submit handlers, with the state they read made explicit. *)
Lemma dispatch_NameFormSubmit (rt : Runtime) (env : Env) (w : World) :
  dispatch env NameFormSubmit w =
  match render w with
  | NameForm =>
      match nameStepSchema (Some (nameForm_name w)) with
      | Success vars =>
          let settled := onNameNext env vars (with_nameForm (nameForm_name w) [] w) in
          (world_of settled, effects_of settled)
      | Failure i => (with_nameForm (nameForm_name w) (first_per_path i) w, [])
      end
  | MetadataForm => (w, [])
  end.
Proof.
  unfold dispatch, enabled. cbn [source_of]. destruct (render w); [|reflexivity].
  cbn [Rendered_eqb handle]. unfold bind at 1. unfold get at 1.
  destruct (nameStepSchema (Some (nameForm_name w))) as [vars|i]; [|reflexivity].
  unfold bind, modify, ret, world_of, effects_of.
  destruct (onNameNext env vars _) as [[w1 l1] [a|e]]; cbn;
    rewrite ?app_nil_r; reflexivity.
Qed.

Lemma dispatch_MetadataFormSubmit (rt : Runtime) (env : Env) (w : World) :
  dispatch env MetadataFormSubmit w =
  match render w with
  | NameForm => (w, [])
  | MetadataForm =>
      match metadataStepSchema (metadataForm_values w) with
      | Success vars =>
          let settled :=
            onSubmit env (submitValues vars (query_name w))
              (with_metadata_submitted [] w) in
          (world_of settled, effects_of settled)
      | Failure i => (with_metadata_submitted (first_per_path i) w, [])
      end
  end.
Proof.
  unfold dispatch, enabled. cbn [source_of]. destruct (render w); [reflexivity|].
  cbn [Rendered_eqb handle]. unfold bind at 1. unfold get at 1.
  destruct (metadataStepSchema (metadataForm_values w)) as [vars|i]; [|reflexivity].
  unfold bind, modify, ret, world_of, effects_of.
  destruct (onSubmit env _ _) as [[w1 l1] [a|e]]; cbn;
    rewrite ?app_nil_r; reflexivity.
Qed.

(** ** When the lookup fails *)

(** X8. Signed in, when the lookup is rejected (the request fails or
    its body is not JSON) the wizard goes to the metadata step all the
    same: the error callback writes the login of the session over the
    contributors, whatever they were, leaves the other two fields, and
    the mutation rejects with the error of the lookup. *)
Theorem lookup_failure_advances (rt : Runtime) (env : Env) (usr : User)
    (vars : NameStepData) (err : Error) (login : option jsstring) (w : World) :
  session_user (session env) = Some usr ->
  lookup_rejection (network env (js "/api/metadata/" ++ name vars) None) = Some err ->
  JSON_parse_login (session_image (session env)) = Return login ->
  onNameNext env vars w =
    (with_step (js "metadata")
       (with_metadata
          (mkMetadataValues (v_categories (metadataForm_values w))
             (v_tags (metadataForm_values w)) login) w),
     [Fetch (js "/api/metadata/" ++ name vars) None;
      QueryWrite (js "step") (js "metadata")],
     Throw err).
Proof.
  intros Hs Hr Hl.
  unfold onNameNext, mutateAsync, catch, onNameNext_mutationFn. rewrite Hs.
  unfold fetch, bind, emit, lift, ret, lookup_rejection in *.
  destruct (network env _ None) as [res|e].
  - destruct (json res) as [b|e]; [discriminate|]. injection Hr as <-.
    cbn. unfold onNameNext_onError, bind, lift. rewrite Hl. reflexivity.
  - injection Hr as <-.
    cbn. unfold onNameNext_onError, bind, lift. rewrite Hl. reflexivity.
Qed.

Lemma lookup_failure_advances_witness :
  session_user Sample.signed_in = Some Sample.user
  /\ onNameNext (mkEnv (js "<svg/>") Sample.signed_in Offline.backend)
       (mkNameStepData (js "arrow-up")) Offline.world =
     (mkWorld (Some (js "metadata")) (Some (js "arrow-up")) (Some (js "true"))
        (js "arrow-up") []
        (mkMetadataValues None (Some (js "up")) (Some (js "octocat"))) [] None,
      [Fetch (js "/api/metadata/arrow-up") None;
       QueryWrite (js "step") (js "metadata")],
      Throw (mkError (js "Failed to fetch"))).
Proof.
  split; [reflexivity|].
  apply (lookup_failure_advances reference_runtime
           (mkEnv (js "<svg/>") Sample.signed_in Offline.backend)
           (usr := Sample.user) (mkNameStepData (js "arrow-up"))
           (err := mkError (js "Failed to fetch")) (login := Some (js "octocat"))
           Offline.world); reflexivity.
Defined.

(** ** What the success callback of the submission can do *)

(** X9. The success callback of the submission either opens a URL in a
    new tab, waits and closes the dialog, in this order, or throws
    having done nothing and changed nothing (the body is not JSON or is
    [null], or the URL is not one), or returns at once when there was
    no response: the dialog is never closed without the tab. *)
Theorem onSubmit_onSuccess_all_or_nothing (rt : Runtime)
    (res : option Response) (w : World) :
  (exists u,
     res <> None
     /\ onSubmit_onSuccess res w =
        (with_open (js "false") w,
         [WindowOpen u (js "_blank"); SetTimeout 2000;
          QueryWrite (js "contributionDialog") (js "false")],
         Return tt))
  \/ (exists e, res <> None /\ onSubmit_onSuccess res w = (w, [], Throw e))
  \/ (res = None /\ onSubmit_onSuccess res w = (w, [], Return tt)).
Proof.
  destruct res as [r|]; [|right; right; split; reflexivity].
  unfold onSubmit_onSuccess, bind, lift.
  destruct (json r) as [b|e]; [|right; left; exists e; split; [discriminate | reflexivity]].
  destruct (destructure_urls b) as [[c x]|e] eqn:D;
    [|right; left; exists e; split; [discriminate | reflexivity]].
  destruct (new_URL (ToString (nullish_coalesce x c))) as [u|e] eqn:U.
  - left. exists u. split; [discriminate|]. cbn. reflexivity.
  - right; left. exists e. split; [discriminate | reflexivity].
Qed.

(** ** From the name step to the metadata step *)

Lemma first_per_path_cons (i : ZodIssue) (r : list ZodIssue) :
  exists r', first_per_path (i :: r) = i :: r'.
Proof. unfold first_per_path. simpl. eauto. Qed.

Lemma first_per_path_not_nil (l : list ZodIssue) :
  l <> [] -> first_per_path l <> [].
Proof.
  destruct l as [|i r]; [congruence|]. intros _.
  destruct (first_per_path_cons i r) as (r' & ->). discriminate.
Qed.

Lemma bind_run A B (m : M A) (k : A -> M B) (w : World) :
  bind m k w =
  match m w with
  | (w1, l1, Return a) =>
      match k a w1 with
      | (w2, l2, r) => (w2, l1 ++ l2, r)
      end
  | (w1, l1, Throw e) => (w1, l1, Throw e)
  end.
Proof. reflexivity. Qed.

Lemma catch_run A (m : M A) (h : Error -> M A) (w : World) :
  catch m h w =
  match m w with
  | (w1, l1, Throw e) =>
      match h e w1 with
      | (w2, l2, r) => (w2, l1 ++ l2, r)
      end
  | settled => settled
  end.
Proof. reflexivity. Qed.

Section NameStepRuns.
Context {rt : Runtime}.
Variable env : Env.

Lemma onNameNext_mutationFn_run (u : User) (vars : NameStepData) (w : World) :
  session_user (session env) = Some u ->
  onNameNext_mutationFn env vars w =
    (w, [Fetch (js "/api/metadata/" ++ name vars) None],
     match network env (js "/api/metadata/" ++ name vars) None with
     | Return res =>
         match json res with
         | Return d => Return (Some d)
         | Throw e => Throw e
         end
     | Throw e => Throw e
     end).
Proof.
  intros H. unfold onNameNext_mutationFn. rewrite H.
  unfold bind, fetch, emit, lift, ret. simpl.
  destruct (network env _ None) as [res|e]; simpl; [|reflexivity].
  destruct (json res); reflexivity.
Qed.

(** The error callback writes the step if it can read the login, and
    does nothing if it cannot. *)
Lemma onNameNext_onError_run (e : Error) (w : World) :
  (exists login,
     JSON_parse_login (session_image (session env)) = Return login
     /\ onNameNext_onError env e w =
        (with_step (js "metadata")
           (with_metadata
              (mkMetadataValues (v_categories (metadataForm_values w))
                 (v_tags (metadataForm_values w)) login) w),
         [QueryWrite (js "step") (js "metadata")], Return tt))
  \/ (exists e',
        JSON_parse_login (session_image (session env)) = Throw e'
        /\ onNameNext_onError env e w = (w, [], Throw e')).
Proof.
  unfold onNameNext_onError, bind, lift.
  destruct (JSON_parse_login (session_image (session env))) as [login|e'].
  - left. exists login. split; reflexivity.
  - right. exists e'. split; reflexivity.
Qed.

(** The success callback writes the step last, or not at all: not at
    all for no data, and when it throws on the way. *)
Lemma onNameNext_onSuccess_run (data : option Body) (w : World) :
  (falsy_data data = false
   /\ effects_of (onNameNext_onSuccess env data w) =
        [QueryWrite (js "step") (js "metadata")]
   /\ q_step (world_of (onNameNext_onSuccess env data w)) = Some (js "metadata")
   /\ result_of (onNameNext_onSuccess env data w) = Return tt)
  \/ (effects_of (onNameNext_onSuccess env data w) = []
      /\ q_step (world_of (onNameNext_onSuccess env data w)) = q_step w
      /\ ((falsy_data data = true
           /\ onNameNext_onSuccess env data w = (w, [], Return tt))
          \/ (falsy_data data = false
              /\ exists e, result_of (onNameNext_onSuccess env data w) = Throw e))).
Proof.
  destruct w as [qs qn qo nn ne [vc vt vk] me se].
  unfold onNameNext_onSuccess, world_of, effects_of, result_of.
  destruct data as [d|]; [|right; cbn; auto].
  destruct (falsy_data (Some d)) eqn:F; [right; cbn; auto|].
  unfold bind, get, lift, ret, setValue_categories, setValue_tags,
    setValue_contributors, setStep, modify, emit, with_metadata, with_step.
  cbn [metadataForm_values v_categories v_tags v_contributors fst snd
       q_step q_name q_contributionDialog nameForm_name nameForm_errors
       metadataForm_errors metadataForm_serverError].
  destruct (falsy vc), (falsy vt), (falsy vk);
    destruct d as [|p|c t k|a b]; cbn;
    try destruct (JSON_parse_login (session_image (session env)));
    cbn; first [left; repeat split; reflexivity
               | right; repeat split; right; split; eauto ].
Qed.

Lemma onNameNext_onError_then_throw (e : Error) (w1 : World) :
  (world_of (bind (onNameNext_onError env e)
               (fun _ => @throw (option Body) e) w1) = w1
   /\ effects_of (bind (onNameNext_onError env e)
                    (fun _ => @throw (option Body) e) w1) = []
   /\ exists e', JSON_parse_login (session_image (session env)) = Throw e')
  \/ (q_step (world_of (bind (onNameNext_onError env e)
                          (fun _ => @throw (option Body) e) w1)) =
        Some (js "metadata")
      /\ effects_of (bind (onNameNext_onError env e)
                       (fun _ => @throw (option Body) e) w1) =
           [QueryWrite (js "step") (js "metadata")]).
Proof.
  rewrite bind_run.
  destruct (onNameNext_onError_run e w1) as [(login & _ & ->)|(e' & He & ->)].
  - right. split; reflexivity.
  - left. split; [reflexivity|]. split; [reflexivity|]. eauto.
Qed.

(** What the whole mutation of the name step comes to. *)
Lemma onNameNext_run (vars : NameStepData) (w : World) :
  (session_user (session env) = None
   /\ onNameNext env vars w = (w, [SignIn (js "github")], Return None))
  \/ (session_user (session env) <> None
      /\ effects_of (onNameNext env vars w) =
           [Fetch (js "/api/metadata/" ++ name vars) None]
      /\ q_step (world_of (onNameNext env vars w)) = q_step w
      /\ (lookup_answers_nothing
            (network env (js "/api/metadata/" ++ name vars) None) = true
          \/ exists e, JSON_parse_login (session_image (session env)) = Throw e))
  \/ (session_user (session env) <> None
      /\ effects_of (onNameNext env vars w) =
           [Fetch (js "/api/metadata/" ++ name vars) None;
            QueryWrite (js "step") (js "metadata")]
      /\ q_step (world_of (onNameNext env vars w)) = Some (js "metadata")
      /\ lookup_answers_nothing
           (network env (js "/api/metadata/" ++ name vars) None) = false).
Proof.
  destruct (session_user (session env)) as [u|] eqn:Hs.
  2:{ left. split; [reflexivity|].
      unfold onNameNext, mutateAsync, catch, bind, onNameNext_mutationFn.
      rewrite Hs. reflexivity. }
  right.
  assert (Some u <> None) as Hu by discriminate.
  unfold onNameNext, mutateAsync.
  rewrite catch_run, bind_run, (onNameNext_mutationFn_run vars w Hs).
  unfold lookup_answers_nothing.
  destruct (network env (js "/api/metadata/" ++ name vars) None) as [res|e];
    [destruct (json res) as [d|e]|]; cbv beta iota.
  - pose proof (onNameNext_onSuccess_run (Some d) w) as HS.
    rewrite bind_run.
    destruct (onNameNext_onSuccess env (Some d) w) as [[w1 l1] r1] eqn:ES.
    unfold world_of, effects_of, result_of in HS. cbn [fst snd] in HS.
    destruct HS as [(F & He & Hq & Hr)|(He & Hq & [[F E]|(F & e & Hr)])].
    + subst l1 r1. right. cbn. auto.
    + injection E as -> -> ->. left. cbn. auto.
    + subst l1 r1. cbv beta iota.
      destruct (onNameNext_onError_then_throw e w1) as [(H1 & H2 & H3)|(H1 & H2)];
        unfold world_of, effects_of in H1, H2;
        destruct (bind (onNameNext_onError env e)
                    (fun _ => @throw (option Body) e) w1) as [[w2 l2] r2];
        cbn [fst snd] in H1, H2; subst l2; unfold world_of, effects_of;
        cbn [fst snd app].
      * left. subst w2. auto.
      * right. auto.
  - destruct (onNameNext_onError_then_throw e w) as [(H1 & H2 & H3)|(H1 & H2)];
      unfold world_of, effects_of in H1, H2;
      destruct (bind (onNameNext_onError env e)
                  (fun _ => @throw (option Body) e) w) as [[w2 l2] r2];
      cbn [fst snd] in H1, H2; subst l2; unfold world_of, effects_of;
      cbn [fst snd app].
    + left. subst w2. auto.
    + right. auto.
  - destruct (onNameNext_onError_then_throw e w) as [(H1 & H2 & H3)|(H1 & H2)];
      unfold world_of, effects_of in H1, H2;
      destruct (bind (onNameNext_onError env e)
                  (fun _ => @throw (option Body) e) w) as [[w2 l2] r2];
      cbn [fst snd] in H1, H2; subst l2; unfold world_of, effects_of;
      cbn [fst snd app].
    + left. subst w2. auto.
    + right. auto.
Qed.

End NameStepRuns.

(** ** What a turn of the dialog may send *)

Section HandlerEffects.
Context {rt : Runtime}.
Variable env : Env.
Variable P : Effect -> Prop.

Lemma setStep_emits (v : jsstring) :
  P (QueryWrite (js "step") v) -> emits P (setStep v).
Proof. intros H. unfold setStep. repeat emits_prim. now apply emits_emit. Qed.

Lemma onNameNext_emits (vars : NameStepData) :
  P (SignIn (js "github")) ->
  (session_user (session env) <> None ->
   P (Fetch (js "/api/metadata/" ++ name vars) None)) ->
  P (QueryWrite (js "step") (js "metadata")) ->
  emits P (onNameNext env vars).
Proof.
  intros H1 H2 H3.
  unfold onNameNext, mutateAsync. apply emits_catch; [apply emits_bind|].
  - unfold onNameNext_mutationFn, signIn, fetch.
    destruct (session_user (session env)) eqn:Hs;
      repeat first [apply emits_emit; auto; apply H2; discriminate | emits_prim].
  - intros d. apply emits_bind; [|intros ?; apply emits_ret].
    unfold onNameNext_onSuccess, setValue_categories, setValue_tags,
      setValue_contributors.
    repeat first [apply setStep_emits; assumption | emits_prim].
  - intros e. unfold onNameNext_onError, setValue_contributors.
    repeat first [apply setStep_emits; assumption | emits_prim].
Qed.

Lemma onSubmit_emits (sv : SubmitValues) :
  P (SignIn (js "github")) ->
  (session_user (session env) <> None ->
   P (Fetch (js "/api/submit")
        (Some (mkRequestInit (js "POST") (submit_body env sv))))) ->
  P (SetTimeout 1500) ->
  (forall u, P (WindowOpen u (js "_blank"))) ->
  P (SetTimeout 2000) ->
  P (QueryWrite (js "contributionDialog") (js "false")) ->
  emits P (onSubmit env sv).
Proof.
  intros H1 H2 H3 H4 H5 H6.
  unfold onSubmit, mutateAsync. apply emits_catch; [apply emits_bind|].
  - unfold onSubmit_mutationFn, signIn, sleep.
    destruct (session_user (session env)) eqn:Hs;
      repeat first [apply emits_emit; auto; apply H2; discriminate | emits_prim].
  - intros d. apply emits_bind; [|intros ?; apply emits_ret].
    unfold onSubmit_onSuccess, windowOpen, sleep, setOpen.
    repeat first [apply emits_emit; solve [auto] | emits_prim].
  - intros e. unfold onSubmit_onError. repeat emits_prim.
Qed.

End HandlerEffects.

Lemma nameStepSchema_cases (rt : Runtime) (n : jsstring) :
  (valid_name n /\ nameStepSchema (Some n) = Success (mkNameStepData n))
  \/ (~ valid_name n
      /\ exists i, i <> [] /\ nameStepSchema (Some n) = Failure i).
Proof.
  unfold valid_name, nameStepSchema, nameSchema, ZodString_field.
  rewrite <- nameChecks_pass.
  destruct (ZodString_issues nameChecks n) as [|m ms] eqn:E.
  - left. split; [reflexivity|].
    apply nameChecks_pass in E as (_ & H1 & H2 & H3).
    now rewrite (nameTransform_fixed rt H1 H2 H3).
  - right. split; [discriminate|]. eexists. split; [|reflexivity]. discriminate.
Qed.

Lemma metadataStepSchema_cases (v : MetadataValues) :
  (exists c t k,
     v = mkMetadataValues (Some c) (Some t) (Some k)
     /\ c <> [] /\ t <> [] /\ k <> []
     /\ metadataStepSchema v = Success (mkMetadataStepData c t k))
  \/ ((falsy (v_categories v) = true \/ falsy (v_tags v) = true
       \/ falsy (v_contributors v) = true)
      /\ exists i, i <> [] /\ metadataStepSchema v = Failure i).
Proof.
  destruct v as [[[|c cs]|] [[|t ts]|] [[|k ks]|]];
    try (right; split; [simpl; tauto|];
         eexists; split; [|reflexivity]; discriminate).
  left. exists (c :: cs), (t :: ts), (k :: ks).
  repeat split; discriminate.
Qed.

(** No other event than the two submissions sends a request. *)
Lemma handle_without_fetch (rt : Runtime) (env : Env) (ev : Event) :
  ev <> NameFormSubmit -> ev <> MetadataFormSubmit ->
  emits (fun e => is_Fetch e = false) (handle env ev).
Proof.
  intros H1 H2.
  assert (forall v, emits (fun e => is_Fetch e = false) (nameField_onChange v))
    as Hname.
  { intros [|c r]; unfold nameField_onChange, setName; repeat emits_prim.
    now apply emits_emit. }
  destruct ev as [v|v| |v|v|v| | |b]; cbn [handle]; try congruence;
    try apply Hname;
    try (unfold setValue_tags, setValue_categories, setValue_contributors;
         apply emits_modify).
  - now apply setStep_emits.
  - unfold setOpen. repeat emits_prim. now apply emits_emit.
Qed.

(** Where a request comes from. *)
Lemma dispatch_fetch_origin (rt : Runtime) (env : Env) (ev : Event) (w : World)
    (url : jsstring) (init : option RequestInit) :
  In (Fetch url init) (snd (dispatch env ev w)) ->
  (ev = NameFormSubmit
   /\ render w = NameForm
   /\ valid_name (nameForm_name w)
   /\ session_user (session env) <> None
   /\ init = None
   /\ url = js "/api/metadata/" ++ nameForm_name w)
  \/ (ev = MetadataFormSubmit
      /\ render w = MetadataForm
      /\ session_user (session env) <> None
      /\ exists c t k,
           metadataForm_values w = mkMetadataValues (Some c) (Some t) (Some k)
           /\ c <> [] /\ t <> [] /\ k <> []
           /\ url = js "/api/submit"
           /\ init = Some (mkRequestInit (js "POST")
                (submit_body env (mkSubmitValues c t k (query_name w))))).
Proof.
  intros Hin.
  assert (ev = NameFormSubmit \/ ev = MetadataFormSubmit
          \/ (ev <> NameFormSubmit /\ ev <> MetadataFormSubmit)) as [->|[->|[N1 N2]]]
    by (destruct ev; auto; right; right; split; discriminate).
  - left. rewrite dispatch_NameFormSubmit in Hin.
    destruct (render w); [|destruct Hin].
    destruct (nameStepSchema_cases rt (nameForm_name w))
      as [[Hv E]|(Hv & i & Hi & E)]; rewrite E in Hin; [|destruct Hin].
    cbn [snd] in Hin.
    assert (emits
              (fun e => forall url init, e = Fetch url init ->
                 session_user (session env) <> None /\ init = None
                 /\ url = js "/api/metadata/" ++ nameForm_name w)
              (onNameNext env (mkNameStepData (nameForm_name w)))) as Hem.
    { apply onNameNext_emits.
      - intros ? ? [=].
      - intros Hs ? ? [= <- <-]. auto.
      - intros ? ? [=]. }
    pose proof (proj1 (Forall_forall _ _)
                  (Hem (with_nameForm (nameForm_name w) [] w))) as Hall.
    destruct (Hall _ Hin url init eq_refl) as (H1 & H2 & H3). auto 8.
  - right. rewrite dispatch_MetadataFormSubmit in Hin.
    destruct (render w); [destruct Hin|].
    destruct (metadataStepSchema_cases (metadataForm_values w))
      as [(c & t & k & Ev & Hc & Ht & Hk & E)|(Hf & i & Hi & E)];
      rewrite E in Hin; [|destruct Hin].
    cbn [snd] in Hin.
    assert (emits
              (fun e => forall url init, e = Fetch url init ->
                 session_user (session env) <> None /\ url = js "/api/submit"
                 /\ init = Some (mkRequestInit (js "POST")
                      (submit_body env (mkSubmitValues c t k (query_name w)))))
              (onSubmit env
                 (submitValues (mkMetadataStepData c t k) (query_name w))))
      as Hem.
    { apply onSubmit_emits.
      - intros ? ? [=].
      - intros Hs ? ? [= <- <-]. auto.
      - intros ? ? [=].
      - intros ? ? ? [=].
      - intros ? ? [=].
      - intros ? ? [=]. }
    pose proof (proj1 (Forall_forall _ _)
                  (Hem (with_metadata_submitted [] w))) as Hall.
    destruct (Hall _ Hin url init eq_refl) as (H1 & H2 & H3).
    split; [reflexivity|]. split; [reflexivity|]. split; [exact H1|].
    exists c, t, k. auto 10.
  - exfalso. unfold dispatch in Hin. destruct (enabled w ev); [|destruct Hin].
    pose proof (proj1 (Forall_forall _ _)
                  (handle_without_fetch rt env N1 N2 w) _ Hin) as H.
    discriminate.
Qed.

(** X10. Next on the name step does nothing but show the issues while
    the name is not valid. Whatever the event, a request without init,
    or to the metadata endpoint, leaves only when the event is Next on
    the name form, for a signed-in user and a valid name, and its URL
    is the path of the metadata endpoint followed by that very name, so
    by lowercase letters, digits and dashes only. *)
Theorem name_submit_gate (rt : Runtime) (env : Env) (w : World) :
  (render w = NameForm -> ~ valid_name (nameForm_name w) ->
   snd (dispatch env NameFormSubmit w) = []
   /\ exists issues, issues <> []
        /\ fst (dispatch env NameFormSubmit w) =
           with_nameForm (nameForm_name w) issues w)
  /\ (forall ev url init,
        In (Fetch url init) (snd (dispatch env ev w)) ->
        ev = NameFormSubmit \/ init = None
        \/ (exists n, url = js "/api/metadata/" ++ n) ->
        ev = NameFormSubmit
        /\ render w = NameForm
        /\ valid_name (nameForm_name w)
        /\ session_user (session env) <> None
        /\ init = None
        /\ url = js "/api/metadata/" ++ nameForm_name w).
Proof.
  split.
  - intros Hr Hv. rewrite dispatch_NameFormSubmit, Hr.
    destruct (nameStepSchema_cases rt (nameForm_name w))
      as [[Hv' _]|(_ & i & Hi & ->)]; [now destruct Hv|].
    split; [reflexivity|]. exists (first_per_path i).
    split; [now apply first_per_path_not_nil | reflexivity].
  - intros ev url init Hin Hwhich.
    destruct (dispatch_fetch_origin rt env ev w url init Hin)
      as [H|(-> & _ & _ & c & t & k & _ & _ & _ & _ & -> & ->)]; [exact H|].
    destruct Hwhich as [H|[H|(n & H)]]; discriminate.
Qed.

(** X11. Submit on the metadata step does nothing but show the issues,
    the error of an earlier submission gone, while one of the three
    fields is missing or empty. Whatever the event, a request with an
    init, or to the submit endpoint, leaves only when the event is
    Submit on the metadata form, for a signed-in user and three filled
    fields, and it is the POST that carries those fields and the name
    held by the query at that moment. *)
Theorem metadata_submit_gate (rt : Runtime) (env : Env) (w : World) :
  (render w = MetadataForm ->
   falsy (v_categories (metadataForm_values w)) = true
   \/ falsy (v_tags (metadataForm_values w)) = true
   \/ falsy (v_contributors (metadataForm_values w)) = true ->
   snd (dispatch env MetadataFormSubmit w) = []
   /\ metadataForm_serverError (fst (dispatch env MetadataFormSubmit w)) = None
   /\ exists issues, issues <> []
        /\ fst (dispatch env MetadataFormSubmit w) =
           with_metadata_submitted issues w)
  /\ (forall ev url init,
        In (Fetch url init) (snd (dispatch env ev w)) ->
        ev = MetadataFormSubmit \/ init <> None \/ url = js "/api/submit" ->
        ev = MetadataFormSubmit
        /\ render w = MetadataForm
        /\ session_user (session env) <> None
        /\ exists c t k,
             metadataForm_values w = mkMetadataValues (Some c) (Some t) (Some k)
             /\ c <> [] /\ t <> [] /\ k <> []
             /\ url = js "/api/submit"
             /\ init = Some (mkRequestInit (js "POST")
                  (submit_body env (mkSubmitValues c t k (query_name w))))).
Proof.
  split.
  - intros Hr F. rewrite dispatch_MetadataFormSubmit, Hr.
    destruct (metadataStepSchema_cases (metadataForm_values w))
      as [(c & t & k & Ev & Hc & Ht & Hk & _)|(_ & i & Hi & ->)].
    + rewrite Ev in F. simpl in F.
      destruct c; [congruence|]. destruct t; [congruence|].
      destruct k; [congruence|]. destruct F as [F|[F|F]]; discriminate.
    + split; [reflexivity|]. split; [reflexivity|].
      exists (first_per_path i).
      split; [now apply first_per_path_not_nil | reflexivity].
  - intros ev url init Hin Hwhich.
    destruct (dispatch_fetch_origin rt env ev w url init Hin)
      as [(-> & _ & _ & _ & -> & ->)|H]; [|exact H].
    destruct Hwhich as [H|[H|H]]; [discriminate | now destruct H | discriminate].
Qed.

(** X12. Whatever the event, the state, the session and the network,
    the dialog signs in with GitHub only, requests the metadata
    endpoint and POSTs to the submit endpoint only, opens tabs named
    [_blank] only, and writes to the query only the two steps, a name
    that is not empty, or the flag of the dialog. *)
Theorem dispatch_effects_allowed (rt : Runtime) (env : Env) (ev : Event)
    (w : World) :
  Forall allowed_effect (snd (dispatch env ev w)).
Proof.
  unfold dispatch. destruct (enabled w ev); [|constructor].
  assert (emits allowed_effect (handle env ev)) as H; [|exact (H w)].
  assert (forall v, emits allowed_effect (nameField_onChange v)) as Hname.
  { intros [|c r]; unfold nameField_onChange, setName; repeat emits_prim.
    apply emits_emit. right; left. split; [reflexivity | discriminate]. }
  destruct ev as [v|v| |v|v|v| | |b]; cbn [handle];
    try apply Hname;
    try (unfold setValue_tags, setValue_categories, setValue_contributors;
         apply emits_modify).
  - apply emits_bind; [apply emits_get|]. intros w0.
    destruct (nameStepSchema (Some (nameForm_name w0))); [|apply emits_modify].
    repeat first
      [ apply onNameNext_emits; simpl;
          [reflexivity | intros _; eauto | left; auto]
      | emits_prim ].
  - apply emits_bind; [apply emits_get|]. intros w0.
    destruct (metadataStepSchema (metadataForm_values w0)); [|apply emits_modify].
    repeat first
      [ apply onSubmit_emits; simpl;
          [ reflexivity | intros _; split; reflexivity | left; reflexivity
          | reflexivity | right; reflexivity | right; right; auto ]
      | emits_prim ].
  - apply setStep_emits. left. auto.
  - unfold setOpen. repeat emits_prim. apply emits_emit.
    right; right. split; [reflexivity|]. destruct b; auto.
Qed.

(** A turn leaves [step] alone, or it is Next writing [metadata], or Back
    writing [name]. *)
Lemma dispatch_step_bound (rt : Runtime) (env : Env) (ev : Event) (w : World) :
  q_step (fst (dispatch env ev w)) = q_step w
  \/ (ev = NameFormSubmit /\ render w = NameForm
      /\ q_step (fst (dispatch env ev w)) = Some (js "metadata")
      /\ render (fst (dispatch env ev w)) = MetadataForm)
  \/ (ev = BackClick /\ render w = MetadataForm
      /\ q_step (fst (dispatch env ev w)) = Some (js "name")
      /\ render (fst (dispatch env ev w)) = NameForm).
Proof.
  unfold dispatch, enabled.
  assert (forall (m : M unit) (allowed : list jsstring),
            step_in allowed m ->
            q_step (fst (fst (m w))) = q_step w
            \/ exists v, In v allowed /\ q_step (fst (fst (m w))) = Some v)
    as Hrun by (intros m allowed Hm; apply (Hm w)).
  destruct ev as [v|v| |v|v|v| | |b]; cbn [source_of handle];
    try (destruct (Rendered_eqb _ (render w)) eqn:En; [|now left]).
  + left. destruct (Hrun (nameField_onChange (nameInput_onChange_value v)) [])
      as [E|(x & [] & _)]; [|exact E].
    unfold nameField_onChange, setName. step_in_tac.
  + left. destruct (Hrun (nameField_onChange (nameInput_onBlur_value v)) [])
      as [E|(x & [] & _)]; [|exact E].
    unfold nameField_onChange, setName. step_in_tac.
  + match goal with
    | |- context [fst (?m w)] =>
        destruct (Hrun m [js "metadata"]) as [E|(x & [<-|[]] & E)]
    end.
    * repeat first [apply onNameNext_step | step_in_prim].
    * now left.
    * right; left. destruct (render w); [|discriminate].
      repeat split; auto. simpl fst. unfold render, step. now rewrite E.
  + left. destruct (Hrun (setValue_tags (Some v)) [])
      as [E|(x & [] & _)]; [|exact E].
    unfold setValue_tags. step_in_tac.
  + left. destruct (Hrun (setValue_categories (Some v)) [])
      as [E|(x & [] & _)]; [|exact E].
    unfold setValue_categories. step_in_tac.
  + left. destruct (Hrun (setValue_contributors (Some v)) [])
      as [E|(x & [] & _)]; [|exact E].
    unfold setValue_contributors. step_in_tac.
  + left.
    match goal with
    | |- context [fst (?m w)] =>
        destruct (Hrun m []) as [E|(x & [] & _)]; [|exact E]
    end.
    repeat first [apply onSubmit_step | step_in_prim].
  + right; right. destruct (render w); [discriminate|].
    repeat split; auto.
  + left. destruct (Hrun (setOpen b) []) as [E|(x & [] & _)]; [|exact E].
    unfold setOpen. step_in_tac.
Qed.

(** Next on the name form, in full: the step stays, for one of four
    reasons, or the lookup is made and then the step is written. *)
Lemma NameFormSubmit_run (rt : Runtime) (env : Env) (w : World) :
  render w = NameForm ->
  (q_step (fst (dispatch env NameFormSubmit w)) = q_step w
   /\ ~ In (QueryWrite (js "step") (js "metadata"))
          (snd (dispatch env NameFormSubmit w))
   /\ (~ valid_name (nameForm_name w)
       \/ session_user (session env) = None
       \/ lookup_answers_nothing
            (network env (js "/api/metadata/" ++ nameForm_name w) None) = true
       \/ exists e, JSON_parse_login (session_image (session env)) = Throw e))
  \/ (valid_name (nameForm_name w)
      /\ session_user (session env) <> None
      /\ snd (dispatch env NameFormSubmit w) =
           [Fetch (js "/api/metadata/" ++ nameForm_name w) None;
            QueryWrite (js "step") (js "metadata")]
      /\ q_step (fst (dispatch env NameFormSubmit w)) = Some (js "metadata")
      /\ lookup_answers_nothing
           (network env (js "/api/metadata/" ++ nameForm_name w) None) = false).
Proof.
  intros Hr. rewrite dispatch_NameFormSubmit, Hr.
  destruct (nameStepSchema_cases rt (nameForm_name w))
    as [[Hv ->]|(Hv & i & Hi & ->)].
  - cbv zeta. cbn [fst snd].
    destruct (onNameNext_run env (mkNameStepData (nameForm_name w))
                (with_nameForm (nameForm_name w) [] w))
      as [[Hs E]|[(Hs & He & Hq & Hwhy)|(Hs & He & Hq & Hn)]]; cbn [name] in *.
    + left. rewrite E. cbn. split; [reflexivity|].
      split; [intros [H|[]]; discriminate | auto].
    + left. rewrite He, Hq. split; [reflexivity|].
      split; [intros [H|[]]; discriminate | tauto].
    + right. rewrite He, Hq. auto.
  - left. cbn. split; [reflexivity|]. split; [tauto | auto].
Qed.

(** C2. The dialog shows the name form exactly when the [step] of the
    query is [name], which it is by default when the parameter is
    absent, and the metadata form for every other value. A turn leaves
    [step] as it was, with two exceptions. Next on the name form writes
    [metadata], and then the name was valid, the user signed in, and the
    write came after the lookup of the mutation, as its last effect; it
    does so whenever the name is valid, the user signed in, the login of
    the session readable and the lookup settled with anything but an
    empty body, be it fulfilled or rejected; with an invalid name,
    without a session user or after an empty body it leaves the step.
    Back on the metadata form writes [name], which brings the name form
    back. *)
Theorem wizard_two_steps (rt : Runtime) (env : Env) (ev : Event) (w : World) :
  (render w = NameForm <-> step w = js "name")
  /\ (render w = MetadataForm <-> step w <> js "name")
  /\ (q_step w = None -> render w = NameForm)
  /\ (q_step (fst (dispatch env ev w)) = q_step w
      \/ (ev = NameFormSubmit /\ render w = NameForm
          /\ valid_name (nameForm_name w)
          /\ session_user (session env) <> None
          /\ snd (dispatch env ev w) =
               [Fetch (js "/api/metadata/" ++ nameForm_name w) None;
                QueryWrite (js "step") (js "metadata")]
          /\ q_step (fst (dispatch env ev w)) = Some (js "metadata")
          /\ render (fst (dispatch env ev w)) = MetadataForm)
      \/ (ev = BackClick /\ render w = MetadataForm
          /\ snd (dispatch env ev w) = [QueryWrite (js "step") (js "name")]
          /\ q_step (fst (dispatch env ev w)) = Some (js "name")
          /\ render (fst (dispatch env ev w)) = NameForm))
  /\ (render w = MetadataForm ->
      dispatch env BackClick w =
        (with_step (js "name") w, [QueryWrite (js "step") (js "name")]))
  /\ (render w = NameForm ->
      valid_name (nameForm_name w) ->
      session_user (session env) <> None ->
      (exists login,
         JSON_parse_login (session_image (session env)) = Return login) ->
      lookup_answers_nothing
        (network env (js "/api/metadata/" ++ nameForm_name w) None) = false ->
      snd (dispatch env NameFormSubmit w) =
        [Fetch (js "/api/metadata/" ++ nameForm_name w) None;
         QueryWrite (js "step") (js "metadata")]
      /\ q_step (fst (dispatch env NameFormSubmit w)) = Some (js "metadata")
      /\ render (fst (dispatch env NameFormSubmit w)) = MetadataForm)
  /\ (render w = NameForm ->
      ~ valid_name (nameForm_name w)
      \/ session_user (session env) = None
      \/ lookup_answers_nothing
           (network env (js "/api/metadata/" ++ nameForm_name w) None) = true ->
      q_step (fst (dispatch env NameFormSubmit w)) = q_step w
      /\ render (fst (dispatch env NameFormSubmit w)) = NameForm).
Proof.
  destruct (render_cases w) as [H1 H2].
  assert (forall w', q_step w' = Some (js "metadata") -> render w' = MetadataForm)
    as Hmeta by (intros w' E; unfold render, step; now rewrite E).
  assert (forall w', q_step w' = q_step w -> render w' = render w) as Hsame
    by (intros w' E; unfold render, step; now rewrite E).
  split; [exact H1|]. split; [exact H2|].
  split; [intros H; apply H1; unfold step; now rewrite H|].
  split; [|split; [|split]].
  - destruct (dispatch_step_bound rt env ev w)
      as [E|[(-> & Hr & Hq & Hr')|(-> & Hr & Hq & Hr')]].
    + now left.
    + destruct (NameFormSubmit_run rt env w Hr)
        as [(E & _)|(Hv & Hs & He & _ & _)]; [now left|].
      right; left. auto 10.
    + right; right. split; [reflexivity|]. split; [exact Hr|].
      split; [|split; assumption].
      unfold dispatch, enabled. cbn [source_of]. rewrite Hr. reflexivity.
  - intros H. unfold dispatch, enabled. cbn [source_of]. rewrite H. reflexivity.
  - intros Hr Hv Hs (login & Hl) Hn.
    destruct (NameFormSubmit_run rt env w Hr)
      as [(_ & _ & [N|[N|[N|(e & N)]]])|(_ & _ & He & Hq & _)];
      try contradiction; try congruence.
    auto.
  - intros Hr Hwhy.
    destruct (NameFormSubmit_run rt env w Hr)
      as [(E & _)|(Hv & Hs & _ & _ & Hn)].
    + split; [exact E|]. rewrite (Hsame _ E). exact Hr.
    + destruct Hwhy as [N|[N|N]]; [contradiction | contradiction | congruence].
Qed.

Lemma wizard_two_steps_witness :
  render (with_nameForm (js "arrow-up") [] Sample.world) = NameForm
  /\ valid_name (js "arrow-up")
  /\ snd (dispatch (mkEnv (js "<svg/>") Sample.signed_in Sample.backend)
            NameFormSubmit (with_nameForm (js "arrow-up") [] Sample.world)) =
       [Fetch (js "/api/metadata/arrow-up") None;
        QueryWrite (js "step") (js "metadata")]
  /\ render (fst (dispatch (mkEnv (js "<svg/>") Sample.signed_in Sample.backend)
                    NameFormSubmit
                    (with_nameForm (js "arrow-up") [] Sample.world))) =
       MetadataForm.
Proof.
  assert (valid_name (js "arrow-up")) as Hv.
  { split; [simpl; lia|]. split; [exists 97, (js "rrow-up"); split; reflexivity|].
    split; [exists (js "arrow-u"), 112; split; reflexivity|].
    repeat constructor. }
  split; [reflexivity|]. split; [exact Hv|].
  destruct (wizard_two_steps reference_runtime
              (mkEnv (js "<svg/>") Sample.signed_in Sample.backend)
              NameFormSubmit (with_nameForm (js "arrow-up") [] Sample.world))
    as (_ & _ & _ & _ & _ & Hgo & _).
  destruct Hgo as (He & _ & Hr).
  - reflexivity.
  - exact Hv.
  - discriminate.
  - exists (Some (js "octocat")). reflexivity.
  - reflexivity.
  - split; [exact He | exact Hr].
Defined.

(** ** What a turn of the dialog keeps *)

Section HandlerFrames.
Context {rt : Runtime}.
Variable env : Env.
Variable X : Type.
Variable f : World -> X.

Lemma onNameNext_preserves (vars : NameStepData) :
  (forall v w, f (with_step v w) = f w) ->
  (forall m w, f (with_metadata m w) = f w) ->
  preserves f (onNameNext env vars).
Proof.
  intros H1 H2.
  unfold onNameNext, mutateAsync, onNameNext_mutationFn, onNameNext_onSuccess,
    onNameNext_onError, signIn, fetch, setValue_categories, setValue_tags,
    setValue_contributors, setStep.
  apply preserves_catch; [apply preserves_bind; [|intros ?]|intros ?];
    repeat first
      [ apply preserves_modify; intros ?; cbv beta zeta; solve [auto]
      | preserves_prim ].
Qed.

Lemma onSubmit_mutationFn_preserves (sv : SubmitValues) :
  preserves f (onSubmit_mutationFn env sv).
Proof.
  unfold onSubmit_mutationFn, signIn, sleep. repeat preserves_prim.
Qed.

Lemma onSubmit_preserves (sv : SubmitValues) :
  (forall v w, f (with_open v w) = f w) ->
  (forall m w, f (with_serverError m w) = f w) ->
  preserves f (onSubmit env sv).
Proof.
  intros H1 H2.
  unfold onSubmit, mutateAsync, onSubmit_onSuccess, onSubmit_onError,
    windowOpen, sleep, setOpen.
  apply preserves_catch; [apply preserves_bind; [|intros ?]|intros ?];
    repeat first
      [ apply onSubmit_mutationFn_preserves
      | apply preserves_modify; intros ?; cbv beta zeta; solve [auto]
      | preserves_prim ].
Qed.

End HandlerFrames.

Lemma nameField_onChange_synced (v : jsstring) (w : World) :
  name_synced (world_of (nameField_onChange v w)).
Proof.
  destruct v as [|c r]; [left | right]; reflexivity.
Qed.

Section CallbackFrames.
Context {rt : Runtime}.
Variable env : Env.
Variable X : Type.
Variable f : World -> X.
Hypothesis f_step : forall v w, f (with_step v w) = f w.
Hypothesis f_metadata : forall m w, f (with_metadata m w) = f w.
Hypothesis f_open : forall v w, f (with_open v w) = f w.
Hypothesis f_serverError : forall m w, f (with_serverError m w) = f w.

Lemma callbacks_preserve (w : World) :
  (forall vars, f (world_of (onNameNext_mutationFn env vars w)) = f w)
  /\ (forall data, f (world_of (onNameNext_onSuccess env data w)) = f w)
  /\ (forall e, f (world_of (onNameNext_onError env e w)) = f w)
  /\ (forall sv, f (world_of (onSubmit_mutationFn env sv w)) = f w)
  /\ (forall res, f (world_of (onSubmit_onSuccess res w)) = f w)
  /\ (forall e, f (world_of (onSubmit_onError e w)) = f w).
Proof.
  assert (forall A (m : M A), preserves f m -> f (world_of (m w)) = f w) as Hrun
    by (intros A m Hm; apply Hm).
  repeat split; intros; apply Hrun.
  - unfold onNameNext_mutationFn, signIn, fetch. repeat preserves_prim.
  - unfold onNameNext_onSuccess, setValue_categories, setValue_tags,
      setValue_contributors, setStep.
    repeat first
      [ apply preserves_modify; intros ?; cbv beta zeta; solve [auto]
      | preserves_prim ].
  - unfold onNameNext_onError, setValue_contributors, setStep.
    repeat first
      [ apply preserves_modify; intros ?; cbv beta zeta; solve [auto]
      | preserves_prim ].
  - apply onSubmit_mutationFn_preserves.
  - unfold onSubmit_onSuccess, windowOpen, sleep, setOpen.
    repeat first
      [ apply preserves_modify; intros ?; cbv beta zeta; solve [auto]
      | preserves_prim ].
  - unfold onSubmit_onError.
    apply preserves_modify; intros ?; auto.
Qed.

End CallbackFrames.

(** X13. If the name of the query is the value of the name input (or
    the input is empty), it is so after every turn, and after the
    mutation function and each callback of the two mutations run on
    their own: whatever is typed while a request is pending, the name
    input and the query do not drift apart. *)
Theorem name_synced_invariant (rt : Runtime) (env : Env) (ev : Event)
    (w : World) :
  name_synced w ->
  name_synced (fst (dispatch env ev w))
  /\ (forall vars, name_synced (world_of (onNameNext_mutationFn env vars w)))
  /\ (forall data, name_synced (world_of (onNameNext_onSuccess env data w)))
  /\ (forall e, name_synced (world_of (onNameNext_onError env e w)))
  /\ (forall sv, name_synced (world_of (onSubmit_mutationFn env sv w)))
  /\ (forall res, name_synced (world_of (onSubmit_onSuccess res w)))
  /\ (forall e, name_synced (world_of (onSubmit_onError e w))).
Proof.
  intros Hw.
  assert (forall w', (nameForm_name w', q_name w') = (nameForm_name w, q_name w) ->
                     name_synced w') as Hsame.
  { intros w' E. unfold name_synced in *. injection E as -> ->. exact Hw. }
  assert (forall (m : M unit),
            preserves (fun w => (nameForm_name w, q_name w)) m ->
            name_synced (world_of (m w))) as Hkeep.
  { intros m Hm. apply Hsame. exact (Hm w). }
  split.
  - destruct ev as [v|v| |v|v|v| | |b].
    + unfold dispatch. destruct (enabled w _); [|exact Hw].
      apply nameField_onChange_synced.
    + unfold dispatch. destruct (enabled w _); [|exact Hw].
      apply nameField_onChange_synced.
    + rewrite dispatch_NameFormSubmit. destruct (render w); [|exact Hw].
      destruct (nameStepSchema (Some (nameForm_name w))) as [vars|i];
        [|exact Hw].
      cbn [fst]. apply Hsame.
      exact (@onNameNext_preserves rt env _
               (fun w => (nameForm_name w, q_name w)) vars
               (fun _ _ => eq_refl) (fun _ _ => eq_refl)
               (with_nameForm (nameForm_name w) [] w)).
    + unfold dispatch. destruct (enabled w _); [|exact Hw].
      apply Hkeep. cbn [handle]. unfold setValue_tags. repeat preserves_prim.
    + unfold dispatch. destruct (enabled w _); [|exact Hw].
      apply Hkeep. cbn [handle]. unfold setValue_categories. repeat preserves_prim.
    + unfold dispatch. destruct (enabled w _); [|exact Hw].
      apply Hkeep. cbn [handle]. unfold setValue_contributors. repeat preserves_prim.
    + rewrite dispatch_MetadataFormSubmit. destruct (render w); [exact Hw|].
      destruct (metadataStepSchema (metadataForm_values w)) as [vars|i];
        [|exact Hw].
      cbn [fst]. apply Hsame.
      exact (@onSubmit_preserves rt env _
               (fun w => (nameForm_name w, q_name w))
               (submitValues vars (query_name w))
               (fun _ _ => eq_refl) (fun _ _ => eq_refl)
               (with_metadata_submitted [] w)).
    + unfold dispatch. destruct (enabled w _); [|exact Hw].
      apply Hkeep. cbn [handle]. unfold setStep. repeat preserves_prim.
    + unfold dispatch. destruct (enabled w _); [|exact Hw].
      apply Hkeep. cbn [handle]. unfold setOpen. repeat preserves_prim.
  - destruct (@callbacks_preserve rt env _
                (fun w => (nameForm_name w, q_name w))
                (fun _ _ => eq_refl) (fun _ _ => eq_refl)
                (fun _ _ => eq_refl) (fun _ _ => eq_refl) w)
      as (H1 & H2 & H3 & H4 & H5 & H6).
    repeat split; intros; apply Hsame; auto.
Qed.

Lemma name_synced_invariant_witness :
  name_synced Sample.world
  /\ enabled Sample.world (NameInputBlur (js "Arrow Down")) = true
  /\ q_name
       (fst (dispatch (mkEnv (js "<svg/>") Sample.signed_in Sample.backend)
               (NameInputBlur (js "Arrow Down")) Sample.world)) =
     Some (js "arrow-down")
  /\ name_synced
       (fst (dispatch (mkEnv (js "<svg/>") Sample.signed_in Sample.backend)
               (NameInputBlur (js "Arrow Down")) Sample.world)).
Proof.
  assert (name_synced Sample.world) as H by (left; reflexivity).
  split; [exact H|]. split; [reflexivity|]. split; [reflexivity|].
  apply (name_synced_invariant reference_runtime
           (mkEnv (js "<svg/>") Sample.signed_in Sample.backend)
           (NameInputBlur (js "Arrow Down")) H).
Defined.

Lemma onSubmit_onSuccess_cases (rt : Runtime) (r : Response) (w : World) :
  (exists u,
     onSubmit_onSuccess (Some r) w =
       (with_open (js "false") w,
        [WindowOpen u (js "_blank"); SetTimeout 2000;
         QueryWrite (js "contributionDialog") (js "false")],
        Return tt))
  \/ (exists e, onSubmit_onSuccess (Some r) w = (w, [], Throw e)).
Proof.
  unfold onSubmit_onSuccess, bind, lift.
  destruct (json r) as [b|e]; [|right; eauto].
  destruct (destructure_urls b) as [[c x]|e]; [|right; eauto].
  destruct (new_URL (ToString (nullish_coalesce x c))) as [u|e].
  - left. exists u. reflexivity.
  - right. eauto.
Qed.

Lemma onSubmit_closes_after_opening (rt : Runtime) (env : Env)
    (sv : SubmitValues) (w : World) :
  q_contributionDialog (world_of (onSubmit env sv w)) = q_contributionDialog w
  \/ (open (world_of (onSubmit env sv w)) = false
      /\ existsb is_WindowOpen (effects_of (onSubmit env sv w)) = true).
Proof.
  pose proof (@onSubmit_mutationFn_preserves env _ (fun w => w) sv w) as Hw.
  unfold onSubmit, mutateAsync, catch, bind, world_of, effects_of in *.
  destruct (onSubmit_mutationFn env sv w) as [[w1 l1] [[r|]|e]];
    cbn in Hw; subst w1.
  - destruct (onSubmit_onSuccess_cases rt r w) as [(u & ->)|(e & ->)].
    + right. cbn. split; [reflexivity|].
      rewrite existsb_app. apply orb_true_iff. right. reflexivity.
    + left. reflexivity.
  - left. reflexivity.
  - left. reflexivity.
Qed.

(** X14. The flag of the dialog in the query changes in two ways only:
    the dialog frame writes what it is told, and reading it back gives
    that; a submission writes [false] after it has opened the pull
    request in a tab. No other turn opens or closes the dialog. *)
Theorem dialog_flag_changes (rt : Runtime) (env : Env) (ev : Event) (w : World) :
  q_contributionDialog (fst (dispatch env ev w)) = q_contributionDialog w
  \/ (exists b, ev = DialogOpenChange b /\ open (fst (dispatch env ev w)) = b)
  \/ (ev = MetadataFormSubmit
      /\ open (fst (dispatch env ev w)) = false
      /\ existsb is_WindowOpen (snd (dispatch env ev w)) = true).
Proof.
  assert (forall (m : M unit), preserves q_contributionDialog m ->
            q_contributionDialog (world_of (m w)) = q_contributionDialog w)
    as Hkeep by (intros m Hm; apply Hm).
  destruct ev as [v|v| |v|v|v| | |b].
  - left. unfold dispatch. destruct (enabled w _); [|reflexivity].
    apply Hkeep. cbn [handle]. unfold nameField_onChange, setName.
    repeat preserves_prim.
  - left. unfold dispatch. destruct (enabled w _); [|reflexivity].
    apply Hkeep. cbn [handle]. unfold nameField_onChange, setName.
    repeat preserves_prim.
  - left. rewrite dispatch_NameFormSubmit. destruct (render w); [|reflexivity].
    destruct (nameStepSchema (Some (nameForm_name w))) as [vars|i];
      [|reflexivity].
    cbn [fst].
    exact (@onNameNext_preserves rt env _ q_contributionDialog vars
             (fun _ _ => eq_refl) (fun _ _ => eq_refl)
             (with_nameForm (nameForm_name w) [] w)).
  - left. unfold dispatch. destruct (enabled w _); [|reflexivity].
    apply Hkeep. cbn [handle]. unfold setValue_tags. repeat preserves_prim.
  - left. unfold dispatch. destruct (enabled w _); [|reflexivity].
    apply Hkeep. cbn [handle]. unfold setValue_categories. repeat preserves_prim.
  - left. unfold dispatch. destruct (enabled w _); [|reflexivity].
    apply Hkeep. cbn [handle]. unfold setValue_contributors. repeat preserves_prim.
  - rewrite dispatch_MetadataFormSubmit. destruct (render w); [left; reflexivity|].
    destruct (metadataStepSchema (metadataForm_values w)) as [vars|i];
      [|left; reflexivity].
    cbn [fst snd].
    destruct (onSubmit_closes_after_opening rt env
                (submitValues vars (query_name w)) (with_metadata_submitted [] w))
      as [H|[H1 H2]].
    + left. exact H.
    + right; right. auto.
  - left. unfold dispatch. destruct (enabled w _); [|reflexivity].
    apply Hkeep. cbn [handle]. unfold setStep. repeat preserves_prim.
  - right; left. exists b. split; [reflexivity|]. destruct b; reflexivity.
Qed.

(** ** The component of FormStepNames.tsx *)

(** X15. The name in the form of [FormStepNames] is the name of the
    query: after the first render whatever [defaultValues] says, and
    after every turn once it is so. The name input writes the query on
    every change, also with an empty value. *)
Theorem FormStepNames_name_synced (rt : Runtime)
    (p : FormStepNamesComponent.Props) (qn qb : option jsstring)
    (ev : FormStepNamesComponent.Event) (s : FormStepNamesComponent.State) :
  FormStepNamesComponent.synced (FormStepNamesComponent.mount qn qb p)
  /\ (FormStepNamesComponent.synced s ->
      FormStepNamesComponent.synced (fst (FormStepNamesComponent.turn p ev s)))
  /\ (forall v,
        FormStepNamesComponent.q_name
          (fst (FormStepNamesComponent.turn p
                  (FormStepNamesComponent.NameChange v) s)) =
          Some (nameInput_onChange_value v)
        /\ snd (FormStepNamesComponent.turn p
                  (FormStepNamesComponent.NameChange v) s) =
           [FormStepNamesComponent.SetName (nameInput_onChange_value v)]).
Proof.
  split; [reflexivity|]. split.
  - intros H. unfold FormStepNamesComponent.turn.
    destruct (FormStepNamesComponent.enabled p s ev); [|exact H].
    destruct (FormStepNamesComponent.handle ev s) as [s' calls] eqn:E.
    cbn [fst].
    destruct (jsstring_eqb (FormStepNamesComponent.name s')
                (FormStepNamesComponent.name s)) eqn:En; [|reflexivity].
    apply jsstring_eqb_eq in En.
    unfold FormStepNamesComponent.synced in *. rewrite En.
    destruct ev; cbn in E;
      try (injection E as <- _; exact H);
      try (injection E as <- _; cbn in *; now rewrite En).
    destruct (FormStepNames.nameStepSchema _); injection E as <- _; exact H.
  - intros v. unfold FormStepNamesComponent.turn. cbn.
    destruct (jsstring_eqb _ _); split; reflexivity.
Qed.

Lemma FormStepNames_name_synced_witness :
  FormStepNamesComponent.synced
    (FormStepNamesComponent.mount (Some (js "arrow-up")) None
       (FormStepNamesComponent.mkProps false
          (FormStepNamesComponent.mkDefaultValues (Some (Some (js "other"))) None)))
  /\ FormStepNamesComponent.synced
       (fst (FormStepNamesComponent.turn
               (FormStepNamesComponent.mkProps false
                  (FormStepNamesComponent.mkDefaultValues (Some (Some (js "other"))) None))
               (FormStepNamesComponent.NameBlur (js "Arrow Down"))
               (FormStepNamesComponent.mount (Some (js "arrow-up")) None
                  (FormStepNamesComponent.mkProps false
                     (FormStepNamesComponent.mkDefaultValues
                        (Some (Some (js "other"))) None))))).
Proof.
  destruct (FormStepNames_name_synced reference_runtime
              (FormStepNamesComponent.mkProps false
                 (FormStepNamesComponent.mkDefaultValues (Some (Some (js "other"))) None))
              (Some (js "arrow-up")) None
              (FormStepNamesComponent.NameBlur (js "Arrow Down"))
              (FormStepNamesComponent.mount (Some (js "arrow-up")) None
                 (FormStepNamesComponent.mkProps false
                    (FormStepNamesComponent.mkDefaultValues
                       (Some (Some (js "other"))) None))))
    as (H1 & H2 & _).
  split; [exact H1 | exact (H2 H1)].
Defined.

Lemma FormStepNames_schema_cases (rt : Runtime) (n b : option jsstring) :
  (exists v, n = Some v /\ valid_name v
     /\ FormStepNames.nameStepSchema (FormStepNames.mkValues n b) =
        Success (FormStepNames.mkData v b))
  \/ ((forall v, n = Some v -> ~ valid_name v)
      /\ exists i, i <> []
           /\ Forall (fun x => path x = js "name") i
           /\ FormStepNames.nameStepSchema (FormStepNames.mkValues n b) =
              Failure i).
Proof.
  assert (FormStepNames.branchSchema b = Success b) as Hb
    by (destruct b; reflexivity).
  unfold FormStepNames.nameStepSchema.
  cbn [FormStepNames.v_name FormStepNames.v_branch]. rewrite Hb.
  destruct n as [v|].
  - unfold nameSchema, ZodString_field.
    destruct (ZodString_issues nameChecks v) as [|m ms] eqn:E.
    + left. exists v. apply nameChecks_pass in E.
      split; [reflexivity|]. split; [exact E|].
      destruct E as (_ & H1 & H2 & H3).
      now rewrite (nameTransform_fixed rt H1 H2 H3).
    + right. split.
      * intros v' [= <-] Hv. apply nameChecks_pass in Hv. congruence.
      * eexists. split; [|split; [|reflexivity]]; [discriminate|].
        cbn [issues_of]. rewrite app_nil_r.
        apply Forall_forall. intros x Hx.
        apply in_map_iff in Hx as (y & <- & _). reflexivity.
  - right. split; [intros v [=]|].
    eexists. split; [|split; [|reflexivity]]; [discriminate|].
    repeat constructor.
Qed.

(** X16. Submitting [FormStepNames] calls [onSubmit] only when not
    pending and with a valid name, and hands it that name with the
    branch of the form as it is; otherwise it calls nothing, and every
    issue it shows is about the name. The branch is sent whether the
    advanced options are shown or not: hiding them keeps what was typed. *)
Theorem FormStepNames_submit (rt : Runtime)
    (p : FormStepNamesComponent.Props) (s : FormStepNamesComponent.State) :
  (forall data,
     In (FormStepNamesComponent.OnSubmit data)
        (snd (FormStepNamesComponent.turn p FormStepNamesComponent.Submit s)) ->
     FormStepNamesComponent.isPending p = false
     /\ exists n, FormStepNamesComponent.form_name s = Some n /\ valid_name n
          /\ data = FormStepNames.mkData n (FormStepNamesComponent.form_branch s))
  /\ (forall n,
        FormStepNamesComponent.isPending p = false ->
        FormStepNamesComponent.form_name s = Some n -> valid_name n ->
        snd (FormStepNamesComponent.turn p FormStepNamesComponent.Submit s) =
          [FormStepNamesComponent.OnSubmit
             (FormStepNames.mkData n (FormStepNamesComponent.form_branch s))]
        /\ (FormStepNamesComponent.showAdvancedOptions s = true ->
            snd (FormStepNamesComponent.turn p FormStepNamesComponent.Submit
                   (fst (FormStepNamesComponent.turn p
                           FormStepNamesComponent.HideAdvancedOptions s))) =
              [FormStepNamesComponent.OnSubmit
                 (FormStepNames.mkData n (FormStepNamesComponent.form_branch s))]))
  /\ ((forall n, FormStepNamesComponent.form_name s = Some n -> ~ valid_name n) ->
      snd (FormStepNamesComponent.turn p FormStepNamesComponent.Submit s) = []
      /\ (FormStepNamesComponent.isPending p = false ->
          FormStepNamesComponent.form_errors
            (fst (FormStepNamesComponent.turn p FormStepNamesComponent.Submit s))
            <> []
          /\ Forall (fun x => path x = js "name")
               (FormStepNamesComponent.form_errors
                  (fst (FormStepNamesComponent.turn p
                          FormStepNamesComponent.Submit s))))).
Proof.
  assert (forall s0,
            FormStepNamesComponent.turn p FormStepNamesComponent.Submit s0 =
            if FormStepNamesComponent.isPending p then (s0, [])
            else FormStepNamesComponent.handle FormStepNamesComponent.Submit s0)
    as Hturn.
  { intros s0. unfold FormStepNamesComponent.turn. cbn [FormStepNamesComponent.enabled].
    destruct (FormStepNamesComponent.isPending p); [reflexivity|]. cbn [negb].
    destruct (FormStepNamesComponent.handle FormStepNamesComponent.Submit s0)
      as [s' calls] eqn:E.
    assert (FormStepNamesComponent.name s' = FormStepNamesComponent.name s0) as ->.
    { cbn in E. destruct (FormStepNames.nameStepSchema _);
        injection E as <- _; reflexivity. }
    now rewrite jsstring_eqb_refl. }
  pose proof (FormStepNames_schema_cases rt
                (FormStepNamesComponent.form_name s)
                (FormStepNamesComponent.form_branch s)) as C.
  split; [|split].
  - intros data. rewrite Hturn.
    destruct (FormStepNamesComponent.isPending p); [intros []|].
    cbn [FormStepNamesComponent.handle].
    destruct C as [(v & Ev & Hv & ->)|(_ & i & _ & _ & ->)]; cbn [snd].
    + intros [[= <-]|[]]. split; [reflexivity|]. exists v. auto.
    + intros [].
  - intros n Hp Hn Hv. split.
    + rewrite Hturn, Hp. cbn [FormStepNamesComponent.handle].
      destruct C as [(v & Ev & _ & ->)|(N & _)].
      * rewrite Hn in Ev. injection Ev as <-. reflexivity.
      * destruct (N n Hn Hv).
    + intros Hshow. rewrite Hturn, Hp.
      unfold FormStepNamesComponent.turn at 1.
      cbn [FormStepNamesComponent.enabled]. rewrite Hshow.
      cbn [FormStepNamesComponent.handle fst].
      rewrite jsstring_eqb_refl. cbn [fst FormStepNamesComponent.handle
        FormStepNamesComponent.form_name FormStepNamesComponent.form_branch].
      destruct C as [(v & Ev & _ & ->)|(N & _)].
      * rewrite Hn in Ev. injection Ev as <-. reflexivity.
      * destruct (N n Hn Hv).
  - intros N. rewrite Hturn.
    destruct (FormStepNamesComponent.isPending p).
    + split; [reflexivity | discriminate].
    + cbn [FormStepNamesComponent.handle].
      destruct C as [(v & Ev & Hv & _)|(_ & i & Hne & Hi & ->)].
      * destruct (N v Ev Hv).
      * split; [reflexivity|]. intros _. split; [exact Hne | exact Hi].
Qed.

Lemma FormStepNames_submit_witness :
  valid_name (js "arrow-up")
  /\ snd (FormStepNamesComponent.turn
            (FormStepNamesComponent.mkProps false
               (FormStepNamesComponent.mkDefaultValues None None))
            FormStepNamesComponent.Submit
            (fst (FormStepNamesComponent.turn
                    (FormStepNamesComponent.mkProps false
                       (FormStepNamesComponent.mkDefaultValues None None))
                    FormStepNamesComponent.HideAdvancedOptions
                    (FormStepNamesComponent.mount (Some (js "arrow-up"))
                       (Some (js "studio/up"))
                       (FormStepNamesComponent.mkProps false
                          (FormStepNamesComponent.mkDefaultValues None None)))))) =
     [FormStepNamesComponent.OnSubmit
        (FormStepNames.mkData (js "arrow-up") (Some (js "studio/up")))].
Proof.
  assert (valid_name (js "arrow-up")) as Hv.
  { split; [simpl; lia|]. split; [exists 97, (js "rrow-up"); split; reflexivity|].
    split; [exists (js "arrow-u"), 112; split; reflexivity|].
    repeat constructor. }
  split; [exact Hv|].
  destruct (FormStepNames_submit reference_runtime
              (FormStepNamesComponent.mkProps false
                 (FormStepNamesComponent.mkDefaultValues None None))
              (FormStepNamesComponent.mount (Some (js "arrow-up"))
                 (Some (js "studio/up"))
                 (FormStepNamesComponent.mkProps false
                    (FormStepNamesComponent.mkDefaultValues None None))))
    as (_ & H & _).
  destruct (H (js "arrow-up") eq_refl eq_refl Hv) as [_ H2].
  exact (H2 eq_refl).
Defined.
